(** * NewAIVersion: the camera phone detector and the answer-evaluation handler

    A shallow embedding of

    - [detectRectangularObject] and [detectPhone] of the [CameraRecorder]
      component (the edge-density heuristic over one video frame and the
      tick that calls it), and
    - the [POST /api/evaluate-answer] handler of the Express server,

    followed by the properties of the specification that concern them.

    Conventions.  A JavaScript number that the code only ever uses as an
    integer is a [Z]; a number that can be [NaN] because it was read past the
    end of the pixel buffer is an [option Z] ([None] is [NaN]); a quotient is
    kept exact in [Q] next to the IEEE special values it can take.  Exact
    arithmetic agrees with IEEE doubles on every operation below as long as
    the frame area stays under 2^40: the gradients are integers of magnitude
    at most 1020, their squares are exact, [Math.sqrt] is correctly rounded
    and monotone, and a fraction [n / area] other than 1/50 (or 3/20) lies
    many units in the last place away from the double 0.02 (or 0.15). *)

From stdpp Require Import base list gmap strings pretty.
From Stdlib Require Import ZArith QArith Qround Reals Lra Lia.
From Stdlib Require Import Strings.Byte Strings.Ascii.

Local Open Scope Z_scope.

(** ** JavaScript numbers *)

Module JS.

(** An integer-valued number, or [NaN]. *)
Definition num := option Z.

Definition NaN : num := None.
Definition int (z : Z) : num := Some z.

Definition neg (a : num) : num := Z.opp <$> a.
Definition add (a b : num) : num := x ← a; y ← b; Some (x + y).
Definition sub (a b : num) : num := x ← a; y ← b; Some (x - y).
Definition mul (a b : num) : num := x ← a; y ← b; Some (x * y).

(** [Math.sqrt(s) > t] for an integer-valued [s] and a threshold [0 <= t].
    [NaN > t] is false.  The test is decided on the squares; lemma
    [sqrt_gt_real] relates it to the real square root. *)
Definition sqrt_gt (s : num) (t : Z) : bool :=
  match s with
  | Some v => t * t <? v
  | None => false
  end.

(** The result of a division [a / b] of two integer-valued numbers, the
    divisor being non-negative (a positive zero when it is zero). *)
Inductive quot :=
| QNaN
| QInf (negative : bool)
| QFin (q : Q).

Definition div (a b : Z) : quot :=
  if b =? 0 then
    if a =? 0 then QNaN else QInf (a <? 0)
  else QFin (Qmake (a * Z.sgn b) (Z.to_pos (Z.abs b))).

(** [a / 3] for a possibly-[NaN] numerator. *)
Definition div_num (a : num) (b : Z) : quot :=
  match a with
  | Some x => div x b
  | None => QNaN
  end.

Definition Qltb (a b : Q) : bool := negb (Qle_bool b a).

(** [r > c] and [r < c] against a finite constant [c]. *)
Definition gt (r : quot) (c : Q) : bool :=
  match r with
  | QNaN => false
  | QInf negative => negb negative
  | QFin q => Qltb c q
  end.

Definition lt (r : quot) (c : Q) : bool :=
  match r with
  | QNaN => false
  | QInf negative => negative
  | QFin q => Qltb q c
  end.

(** [for (let i = lo; i < hi; i++) s = body i s]. *)
Fixpoint for_loop {S : Type} (fuel : nat) (i : Z) (body : Z → S → S) (s : S) : S :=
  match fuel with
  | O => s
  | Datatypes.S fuel' => for_loop fuel' (i + 1) body (body i s)
  end.

Definition for_range {S : Type} (lo hi : Z) (body : Z → S → S) (s : S) : S :=
  for_loop (Z.to_nat (hi - lo)) lo body s.

End JS.

(** ** The detector *)

Module Detector.
Import JS.

(** [ImageData]: a [Uint8ClampedArray] and two [unsigned long] sizes. *)
Record ImageData := mkImageData {
  data : list byte;
  width : N;
  height : N
}.

Definition byte_val (b : byte) : Z := Z.of_N (Byte.to_N b).

(** [data[i]] in a numeric context: a read outside the buffer is
    [undefined], which every arithmetic operator turns into [NaN]. *)
Definition get (data : list byte) (i : Z) : num :=
  if i <? 0 then NaN else byte_val <$> data !! Z.to_nat i.

Declare Scope js_scope.
Delimit Scope js_scope with js.
Notation "- a" := (neg a) : js_scope.
Notation "a + b" := (add a b) : js_scope.
Notation "a - b" := (sub a b) : js_scope.
Notation "a * b" := (mul a b) : js_scope.

Section Kernel.
Variables (data : list byte) (width : Z) (x y : Z).

Definition gray : quot :=
  let idx := (y * width + x) * 4 in
  div_num (get data idx + get data (idx + 1) + get data (idx + 2))%js 3.

Definition gx : num :=
  (- get data (((y-1) * width + (x-1)) * 4) + get data (((y-1) * width + (x+1)) * 4) +
   int (-2) * get data ((y * width + (x-1)) * 4) + int 2 * get data ((y * width + (x+1)) * 4) +
   - get data (((y+1) * width + (x-1)) * 4) + get data (((y+1) * width + (x+1)) * 4))%js.

Definition gy : num :=
  (- get data (((y-1) * width + (x-1)) * 4) - int 2 * get data (((y-1) * width + x) * 4) - get data (((y-1) * width + (x+1)) * 4) +
   get data (((y+1) * width + (x-1)) * 4) + int 2 * get data (((y+1) * width + x) * 4) + get data (((y+1) * width + (x+1)) * 4))%js.

(** [Math.sqrt(gx * gx + gy * gy) > 50]. *)
Definition is_edge : bool :=
  sqrt_gt (gx * gx + gy * gy)%js 50.
End Kernel.

(** The two nested loops; the value is the final [edgeCount]. *)
Definition countEdges (imageData : ImageData) : Z :=
  let data := imageData.(data) in
  let width := Z.of_N imageData.(width) in
  let height := Z.of_N imageData.(height) in
  let edgeCount := 0 in
  let rectangularShapes := 0 in
  for_range 1 (height - 1) (λ y edgeCount,
    for_range 1 (width - 1) (λ x edgeCount,
      let gray := gray data width x y in
      if is_edge data width x y then edgeCount + 1 else edgeCount)
    edgeCount)
  edgeCount.

Definition edgeRatio (imageData : ImageData) : quot :=
  div (countEdges imageData) (Z.of_N imageData.(width) * Z.of_N imageData.(height)).

Definition detectRectangularObject (imageData : ImageData) : bool :=
  let edgeRatio := edgeRatio imageData in
  gt edgeRatio 0.02 && lt edgeRatio 0.15.

End Detector.

(** ** The frame of the specification

    A frame is a grid of RGBA pixels, [W] wide and [H] high, stored row by
    row.  [toImageData] lays it out the way the canvas hands it to the
    detector: four bytes per pixel in the order R, G, B, A, no padding. *)

Module Frame.
Import JS Detector.

Record Pixel := mkPixel {
  red : byte;
  green : byte;
  blue : byte;
  alpha : byte
}.

#[export] Instance Pixel_inhabited : Inhabited Pixel :=
  populate (mkPixel x00 x00 x00 x00).

Record Frame := mkFrame {
  W : N;
  H : N;
  pixels : list Pixel
}.

Definition well_formed (fr : Frame) : Prop :=
  length fr.(pixels) = N.to_nat (fr.(W) * fr.(H)).

Definition channels (p : Pixel) : list byte :=
  [p.(red); p.(green); p.(blue); p.(alpha)].

Definition toImageData (fr : Frame) : ImageData :=
  mkImageData (fr.(pixels) ≫= channels) fr.(W) fr.(H).

Definition pixel_at (fr : Frame) (i j : Z) : Pixel :=
  fr.(pixels) !!! Z.to_nat (j * Z.of_N fr.(W) + i).

(** [P fr i j]: the red-channel value at pixel (i, j). *)
Definition P (fr : Frame) (i j : Z) : Z :=
  byte_val (pixel_at fr i j).(red).

(** The interior pixels (x, y), 1 <= x <= width - 2 and
    1 <= y <= height - 2, in the order of the scan. *)
Definition interior (width height : Z) : list (Z * Z) :=
  y ← seqZ 1 (height - 2); x ← seqZ 1 (width - 2); [(x, y)].

(** A frame all of whose pixels have the colour [p]. *)
Definition uniform (w h : N) (p : Pixel) : Frame :=
  mkFrame w h (replicate (N.to_nat (w * h)) p).

(** The 3x3 frame whose left column is black and whose right column is
    saturated red; the centre column is black too. *)
Definition black : Pixel := mkPixel x00 x00 x00 xff.
Definition bright : Pixel := mkPixel xff x00 x00 xff.
Definition step3x3 : Frame :=
  mkFrame 3 3 [black; black; bright;
               black; black; bright;
               black; black; bright].

(** [step3x3] with other green, blue and alpha bytes. *)
Definition tinted3x3 : Frame :=
  mkFrame 3 3 [mkPixel x00 x10 x20 x30; mkPixel x00 xff x00 x00; mkPixel xff xff xff x00;
               mkPixel x00 x40 x50 x60; mkPixel x00 x00 xff x00; mkPixel xff x01 x02 x03;
               mkPixel x00 x70 x80 x90; mkPixel x00 x7f x7f x7f; mkPixel xff x00 xff xff].

Definition gray128 : Pixel := mkPixel x80 x80 x80 xff.

(** Does the pixel [p] = (x, y) of [f] pass the threshold? *)
Definition edge_at (f : ImageData) (p : Z * Z) : bool :=
  is_edge f.(data) (Z.of_N f.(width)) p.1 p.2.

End Frame.

(** ** The tick of the camera component *)

Module CameraRecorder.
Import Detector.

(** What [this] is bound to inside the component.  [CameraRecorder] and
    [detectPhone] are arrow functions, so [this] is the one of the
    enclosing module: [undefined] in an ES module.  The other binding, an
    object on which the property [phoneDetected] may or may not exist, is
    kept for a host that evaluates the file as a script.  Nothing in the
    source assigns [this.phoneDetected]. *)
Inductive ThisBinding :=
| ThisUndefined
| ThisObject (phoneDetected : option bool).

Inductive completion (A : Type) :=
| Normal (a : A)
| ThrowTypeError.
Arguments Normal {A} a.
Arguments ThrowTypeError {A}.

Definition bind {A B} (c : completion A) (k : A → completion B) : completion B :=
  match c with
  | Normal a => k a
  | ThrowTypeError => ThrowTypeError
  end.

Notation "'let*' x ':=' c 'in' k" := (bind c (λ x, k))
  (at level 10, x name, c at level 100, k at level 200).

(** [this.phoneDetected], as a condition. *)
Definition this_phoneDetected (this : ThisBinding) : completion bool :=
  match this with
  | ThisUndefined => ThrowTypeError
  | ThisObject v => Normal (default false v)
  end.

(** [a && b] with [b] evaluated only when [a] holds. *)
Definition and_then (a : bool) (b : completion bool) : completion bool :=
  if a then b else Normal false.

(** The state updates and timers a tick asks for, in program order. *)
Inductive Update :=
| SetPhoneDetected (b : bool)
| SetShowPhoneToast (b : bool).

Inductive Action :=
| Do (u : Update)
| SetTimeout (callback : list Update) (ms : N).

(** [detectPhone], from the point where the frame has been read back.
    [frame] is [None] when one of the guards returns before that (no video
    element, no canvas, no context, a video of width or height 0). *)
Definition detectPhone (this : ThisBinding) (frame : option ImageData)
  : completion (list Action) :=
  match frame with
  | None => Normal []
  | Some imageData =>
    let phoneDetected := detectRectangularObject imageData in
    let* c1 := and_then phoneDetected
                 (let* b := this_phoneDetected this in Normal (negb b)) in
    if c1 then
      Normal [Do (SetPhoneDetected true);
              Do (SetShowPhoneToast true);
              SetTimeout [SetShowPhoneToast false] 5000]
    else
      let* c2 := and_then (negb phoneDetected) (this_phoneDetected this) in
      if c2 then Normal [Do (SetPhoneDetected false)] else Normal []
  end.

Definition is_notification (a : Action) : bool :=
  match a with
  | Do (SetShowPhoneToast true) => true
  | _ => false
  end.

(** Did the tick show the toast?  A tick that throws shows nothing: the
    exception leaves the interval callback before any state update. *)
Definition notified (c : completion (list Action)) : bool :=
  match c with
  | Normal acts => existsb is_notification acts
  | ThrowTypeError => false
  end.

(** One entry per tick of the interval. *)
Definition notifications (this : ThisBinding) (frames : list ImageData) : list bool :=
  (λ f, notified (detectPhone this (Some f))) <$> frames.

(** The behaviour the specification asks of the caller: one stored boolean
    [lastPresent], updated after each detector call, and a notification on
    the false-to-true edge only. *)
Fixpoint edge_notifications (lastPresent : bool) (results : list bool) : list bool :=
  match results with
  | [] => []
  | present :: rest =>
    (present && negb lastPresent) :: edge_notifications present rest
  end.

End CameraRecorder.

(** ** The detector as a program over the store

    [detectRectangularObject] is a closure declared inside the component:
    the state of the component is within its reach, and the pixel buffer it
    is handed is a shared, mutable typed array.  Here the function is
    written in store-passing style, every read of [data[i]] going through
    the store, so that what a call does to the store, and what in the store
    its result depends on, can be stated. *)

Module Imperative.
Import JS Detector.

(** The state of the component that is plain data. *)
Record Component := mkComponent {
  isRecording : bool;
  hasPermission : option bool;
  phoneDetected : bool;
  showPhoneToast : bool
}.

Record Store := mkStore {
  arrays : gmap N (list byte);   (* the typed arrays, by address *)
  component : Component
}.

(** An [ImageData] object: [data] refers to a typed array; the three
    properties are read-only. *)
Record ImageObject := mkImageObject {
  data_ref : N;
  image_width : N;
  image_height : N
}.

Definition M (A : Type) : Type := Store → A * Store.

#[export] Instance M_ret : MRet M := λ A a s, (a, s).
#[export] Instance M_bind : MBind M :=
  λ A B k m s, let (a, s') := m s in k a s'.

(** [data[i]] in a numeric context, on the typed array at address [data]. *)
Definition read (data : N) (i : Z) : M num :=
  λ s, (get (s.(arrays) !!! data) i, s).

(** [for (let i = lo; i < hi; i++) acc = body i acc]. *)
Fixpoint for_loop {S : Type} (fuel : nat) (i : Z) (body : Z → S → M S) (acc : S)
  : M S :=
  match fuel with
  | O => mret acc
  | Datatypes.S fuel' => acc' ← body i acc; for_loop fuel' (i + 1) body acc'
  end.

Definition for_range {S : Type} (lo hi : Z) (body : Z → S → M S) (acc : S) : M S :=
  for_loop (Z.to_nat (hi - lo)) lo body acc.

Section Kernel.
Variables (data : N) (width : Z) (x y : Z).

Definition gray : M quot :=
  let idx := (y * width + x) * 4 in
  r ← read data idx;
  g ← read data (idx + 1);
  b ← read data (idx + 2);
  mret (div_num (r + g + b)%js 3).

Definition gx : M num :=
  a ← read data (((y-1) * width + (x-1)) * 4);
  b ← read data (((y-1) * width + (x+1)) * 4);
  c ← read data ((y * width + (x-1)) * 4);
  d ← read data ((y * width + (x+1)) * 4);
  e ← read data (((y+1) * width + (x-1)) * 4);
  f ← read data (((y+1) * width + (x+1)) * 4);
  mret (- a + b + int (-2) * c + int 2 * d + - e + f)%js.

Definition gy : M num :=
  a ← read data (((y-1) * width + (x-1)) * 4);
  b ← read data (((y-1) * width + x) * 4);
  c ← read data (((y-1) * width + (x+1)) * 4);
  d ← read data (((y+1) * width + (x-1)) * 4);
  e ← read data (((y+1) * width + x) * 4);
  f ← read data (((y+1) * width + (x+1)) * 4);
  mret (- a - int 2 * b - c + d + int 2 * e + f)%js.
End Kernel.

(** [detectRectangularObject]. *)
Definition detectRectangularObject (imageData : ImageObject) : M bool :=
  let data := imageData.(data_ref) in
  let width := Z.of_N imageData.(image_width) in
  let height := Z.of_N imageData.(image_height) in
  let edgeCount := 0 in
  let rectangularShapes := 0 in
  edgeCount ← for_range 1 (height - 1) (λ y edgeCount,
    for_range 1 (width - 1) (λ x edgeCount,
      gray ← gray data width x y;
      gx ← gx data width x y;
      gy ← gy data width x y;
      mret (if sqrt_gt (gx * gx + gy * gy)%js 50 then edgeCount + 1
            else edgeCount))
    edgeCount)
  edgeCount;
  let edgeRatio := div edgeCount (width * height) in
  mret (gt edgeRatio 0.02 && lt edgeRatio 0.15).

(** The frame that an image object holds in a store: the bytes of its
    typed array, its width and its height. *)
Definition snapshot (s : Store) (imageData : ImageObject) : ImageData :=
  mkImageData (s.(arrays) !!! imageData.(data_ref))
              imageData.(image_width) imageData.(image_height).

(** *** What the callers do to the store *)

(** [ctx.getImageData(...)]: a fresh typed array at [address] with the
    bytes of the frame, and the image object that refers to it. *)
Definition getImageData (address : N) (frame : ImageData) : M ImageObject :=
  λ s, (mkImageObject address frame.(width) frame.(height),
        mkStore (<[address := frame.(data)]> s.(arrays)) s.(component)).

(** [setPhoneDetected(b)], once React has applied it. *)
Definition setPhoneDetected (b : bool) : M unit :=
  λ s, (tt, mkStore s.(arrays)
              (mkComponent s.(component).(isRecording)
                 s.(component).(hasPermission) b
                 s.(component).(showPhoneToast))).

Definition empty_store : Store :=
  mkStore ∅ (mkComponent false None false false).

End Imperative.

(** ** The answer-evaluation handler *)

From Stdlib Require Import Qminmax.

Module Server.

(** *** Strings: sequences of UTF-16 code units *)

Definition jsstring := list N.

Definition str (s : string) : jsstring :=
  N_of_ascii <$> String.list_ascii_of_string s.

(** [\s] of a regular expression, which is also what [trim] removes:
    WhiteSpace and LineTerminator of ECMAScript. *)
Definition is_space (c : N) : bool :=
  bool_decide (c ∈ [9; 10; 11; 12; 13; 32; 160; 5760; 8232; 8233; 8239;
                    8287; 12288; 65279]%N)
  || ((8192 <=? c) && (c <=? 8202))%N.

Fixpoint trimStart (s : jsstring) : jsstring :=
  match s with
  | [] => []
  | c :: rest => if is_space c then trimStart rest else s
  end.

Definition trim (s : jsstring) : jsstring :=
  reverse (trimStart (reverse (trimStart s))).

(** [s.split(/\s+/)]: [cur] is the piece being read, [in_run] tells
    whether the previous code unit was a separator. *)
Fixpoint split_spaces (cur : jsstring) (in_run : bool) (s : jsstring) : list jsstring :=
  match s with
  | [] => [cur]
  | c :: rest =>
    if is_space c then
      if in_run then split_spaces cur true rest
      else cur :: split_spaces [] true rest
    else split_spaces (cur ++ [c]) false rest
  end.

Definition split (s : jsstring) : list jsstring := split_spaces [] false s.

(** [s.replace(/<fence>\n?/g, '')] for a literal, non-empty [fence];
    [skip] counts the code units of the current match still to drop. *)
Fixpoint remove_fence (fence : jsstring) (skip : nat) (s : jsstring) : jsstring :=
  match s with
  | [] => []
  | c :: rest =>
    match skip with
    | S n => remove_fence fence n rest
    | O =>
      if bool_decide (take (length fence) s = fence) then
        let newline :=
          match drop (length fence) s with
          | 10%N :: _ => 1%nat
          | _ => 0%nat
          end in
        remove_fence fence (length fence - 1 + newline) rest
      else c :: remove_fence fence 0 rest
    end
  end.

(** *** Values *)

(** A number as [JSON.parse] produces it: a finite value, or an infinity
    when the literal overflows.  [JSON.parse] never yields [NaN]. *)
Inductive number :=
| Fin (q : Q)
| PosInf
| NegInf.

#[warnings="-register-all"]
Inductive json :=
| JNull
| JBool (b : bool)
| JNum (n : number)
| JStr (s : jsstring)
| JArr (items : list json)
| JObj (fields : list (jsstring * json)).

(** A JavaScript value that came out of JSON, or [undefined]. *)
Definition value := option json.
Definition undefined : value := None.

Definition of_Z (z : Z) : json := JNum (Fin (inject_Z z)).

(** [Math.min(a, x)] and [Math.max(a, x)] for a finite [a]. *)
Definition Math_min (a : Q) (x : number) : number :=
  match x with
  | Fin q => if Qle_bool a q then Fin a else Fin q
  | PosInf => Fin a
  | NegInf => NegInf
  end.

Definition Math_max (a : Q) (x : number) : number :=
  match x with
  | Fin q => if Qle_bool q a then Fin a else Fin q
  | PosInf => PosInf
  | NegInf => Fin a
  end.

Definition truthy (v : value) : bool :=
  match v with
  | None | Some JNull => false
  | Some (JBool b) => b
  | Some (JNum (Fin q)) => negb (Qeq_bool q 0)
  | Some (JNum _) => true
  | Some (JStr s) => negb (bool_decide (s = []))
  | Some (JArr _) | Some (JObj _) => true
  end.

Fixpoint field (k : jsstring) (fields : list (jsstring * json)) : value :=
  match fields with
  | [] => undefined
  | (k', v) :: rest => if bool_decide (k' = k) then Some v else field k rest
  end.

Fixpoint set_field (k : jsstring) (v : json) (fields : list (jsstring * json))
  : list (jsstring * json) :=
  match fields with
  | [] => [(k, v)]
  | (k', v') :: rest =>
    if bool_decide (k' = k) then (k, v) :: rest
    else (k', v') :: set_field k v rest
  end.

(** [o.k] for one of the five keys of an evaluation, on a value other
    than [null]: such a key exists on an object only. *)
Definition prop (o : json) (k : jsstring) : value :=
  match o with
  | JObj fields => field k fields
  | _ => undefined
  end.

(** [o.k = v] on an object. *)
Definition assign (o : json) (k : jsstring) (v : json) : json :=
  match o with
  | JObj fields => JObj (set_field k v fields)
  | _ => o
  end.

Definition is_number (v : value) : bool :=
  match v with Some (JNum _) => true | _ => false end.

Definition is_array (v : value) : bool :=
  match v with Some (JArr _) => true | _ => false end.

(** Does the template literal [`${v}`] produce a string?  For a value that
    came out of JSON the conversion throws a [TypeError] exactly on an
    object with a property [toString] of its own (no JSON value is callable,
    and [Object.prototype.valueOf] returns the object), and on an array
    that holds such an object, at any depth, since [Array.prototype.join]
    converts each element other than [null]. *)
Fixpoint stringable (v : json) : bool :=
  match v with
  | JArr items =>
    (fix all (l : list json) : bool :=
       match l with
       | [] => true
       | x :: rest => stringable x && all rest
       end) items
  | JObj fields =>
    match field (str "toString") fields with
    | None => true
    | Some _ => false
    end
  | _ => true
  end.

Definition stringable_value (v : value) : bool :=
  match v with
  | Some j => stringable j
  | None => true
  end.

(** *** Sessions *)

Record Answer := mkAnswer {
  questionId : value;
  question : value;
  answer : value;
  evaluation : json;
  timestamp : N
}.

(** A truthy value that an object literal inherits from [Object.prototype]
    (a method such as [constructor], or the prototype itself under
    [__proto__]): what [JSON.stringify] makes of it as the value of a
    property ([None] when the property is left out, as for a function) and
    its property [length] ([undefined] when it has none). *)
Record Foreign := mkForeign {
  foreign_json : option json;
  foreign_length : value
}.

(** The [questions] of a session: a list of questions, or the inherited
    value that the fallback generator returns for some domains. *)
Inductive questions_value :=
| Listed (l : list json)
| Inherited (f : Foreign).

Record Session := mkSession {
  domain : jsstring;
  questions : questions_value;
  answers : list Answer;
  scores : list json;
  createdAt : N
}.

(** [interviewSessions.get(sessionId)]: the keys are the strings made by
    [Date.now().toString()], so only a string finds a session. *)
Definition sessions_get (sessions : gmap jsstring Session) (sessionId : value)
  : option Session :=
  match sessionId with
  | Some (JStr key) => sessions !! key
  | _ => None
  end.

(** The session after [session.answers.push(a)]. *)
Definition pushed (session : Session) (a : Answer) : Session :=
  mkSession session.(domain) session.(questions)
            (session.(answers) ++ [a]) session.(scores) session.(createdAt).

(** [session.answers.push(a)] on the session found under [sessionId]: the
    map holds the very object that is mutated. *)
Definition push_answer (sessions : gmap jsstring Session) (sessionId : value)
    (session : Session) (a : Answer) : gmap jsstring Session :=
  match sessionId with
  | Some (JStr key) => <[key := pushed session a]> sessions
  | _ => sessions
  end.

(** *** Requests, responses and the outside world *)

Record Body := mkBody {
  body_sessionId : value;
  body_questionId : value;
  body_answer : value;
  body_question : value
}.

Record Response := mkResponse {
  status : N;
  payload : json
}.

Definition res_json (payload : json) : Response := mkResponse 200 payload.

Definition res_error (status : N) (message : string) : Response :=
  mkResponse status (JObj [(str "error", JStr (str message))]).

(** What the handler cannot decide by itself during one request. *)
Record World := mkWorld {
  model_available : bool;        (* [model] is not [null] *)
  generated : option jsstring;   (* the text of the AI response; [None]
                                    when [generateContent] or
                                    [response.text()] throws *)
  random : Q;                    (* the value of [Math.random()] *)
  now : N;                       (* [new Date()] *)
  later : N                      (* [new Date()] when the request reads
                                    the clock once more *)
}.

Definition strings (l : list string) : json := JArr ((λ s, JStr (str s)) <$> l).

(** The evaluation used when the AI is not configured. *)
Definition unavailableEvaluation (random : Q) : json :=
  JObj [
    (str "score", of_Z (Qfloor (random * 4) + 5));
    (str "feedback", JStr (str "Answer received and recorded. AI evaluation is currently unavailable, but your response has been noted."));
    (str "strengths", strings ["Provided a response"; "Engaged with the question"]);
    (str "improvements", strings ["Could be more detailed"; "Consider providing examples"]);
    (str "keyPoints", strings ["Technical accuracy"; "Practical examples"; "Clear communication"])
  ].

(** The evaluation used when the AI response cannot be read. *)
Definition unparsedEvaluation (random : Q) : json :=
  JObj [
    (str "score", of_Z (Qfloor (random * 3) + 6));
    (str "feedback", JStr (str "Your answer has been recorded and shows engagement with the question. While AI evaluation encountered a technical issue, your response demonstrates effort and understanding of the topic."));
    (str "strengths", strings ["Provided a comprehensive response"; "Showed understanding of the topic"]);
    (str "improvements", strings ["Could include more specific examples"; "Consider elaborating on technical details"]);
    (str "keyPoints", strings ["Technical accuracy"; "Practical examples"; "Clear communication"; "Problem-solving approach"])
  ].

Definition wordCount (answer : jsstring) : Z :=
  Z.of_nat (length (split (trim answer))).

Definition baseScore (wordCount : Z) : Z :=
  Z.min 8 (Z.max 4 (Qfloor (wordCount # 10) + 4)).

(** The evaluation used when the request fails after validation. *)
Definition lengthEvaluation (wordCount : Z) : json :=
  JObj [
    (str "score", of_Z (baseScore wordCount));
    (str "feedback", JStr (str "Your response has been recorded (" ++ str (pretty wordCount) ++ str " words). While AI evaluation is temporarily unavailable, your answer shows engagement with the question and will be considered in your overall assessment."));
    (str "strengths", strings ["Provided a detailed response"; "Engaged thoughtfully with the question"]);
    (str "improvements", strings ["Continue to provide specific examples"; "Consider technical depth where applicable"]);
    (str "keyPoints", strings ["Technical accuracy"; "Practical examples"; "Clear communication"; "Comprehensive coverage"])
  ].

(** [text.replace(/```json\n?/g, '').replace(/```\n?/g, '').trim()], the
    clean-up both handlers apply before [JSON.parse]. *)
Definition clean_response (text : jsstring) : jsstring :=
  trim (remove_fence (str "```") 0 (remove_fence (str "```json") 0 text)).

Section Handler.
(** [JSON.parse]; [None] when it throws a [SyntaxError]. *)
Variable JSON_parse : jsstring → option json.

Definition stored (b : Body) (evaluation : json) (w : World) : Answer :=
  mkAnswer b.(body_questionId) b.(body_question) b.(body_answer)
           evaluation w.(now).

(** The answer of a second [push] in the same request. *)
Definition stored_later (b : Body) (evaluation : json) (w : World) : Answer :=
  mkAnswer b.(body_questionId) b.(body_question) b.(body_answer)
           evaluation w.(later).

(** The outer [catch]. *)
Definition on_error (w : World) (body : option Body)
    (sessions : gmap jsstring Session) : Response * gmap jsstring Session :=
  let failed := res_error 500 "Failed to evaluate answer. Please try again." in
  match body with
  | None => (failed, sessions)       (* destructuring [undefined] throws again *)
  | Some b =>
    match sessions_get sessions b.(body_sessionId) with
    | Some session =>
      match b.(body_answer) with
      | Some (JStr answer) =>
        let wordCount := wordCount answer in
        let fallbackEvaluation := lengthEvaluation wordCount in
        (res_json fallbackEvaluation,
         push_answer sessions b.(body_sessionId) session
           (stored b fallbackEvaluation w))
      | _ => (failed, sessions)      (* [answer.trim] is not a function *)
      end
    | None => (failed, sessions)
    end
  end.

(** The inner [try]: read the AI text, or fall back.  The inner [catch]
    also receives the [TypeError] of the template literal that logs the
    stored answer, thrown after the first [push] when [questionId] has no
    string form: the fallback is then pushed onto the same session as a
    second answer, and it is the fallback that is returned. *)
Definition on_text (w : World) (b : Body) (session : Session) (text : jsstring)
    (sessions : gmap jsstring Session) : Response * gmap jsstring Session :=
  let text := clean_response text in
  let fallbackEvaluation := unparsedEvaluation w.(random) in
  let fallback :=
    (res_json fallbackEvaluation,
     push_answer sessions b.(body_sessionId) session
       (stored b fallbackEvaluation w)) in
  match JSON_parse text with
  | None => fallback
  | Some JNull => fallback           (* [null.score] throws *)
  | Some evaluation =>
    if negb (is_number (prop evaluation (str "score")))
       || negb (truthy (prop evaluation (str "feedback")))
       || negb (is_array (prop evaluation (str "strengths")))
       || negb (is_array (prop evaluation (str "improvements")))
       || negb (is_array (prop evaluation (str "keyPoints")))
    then fallback
    else
      match prop evaluation (str "score") with
      | Some (JNum score) =>
        let evaluation :=
          assign evaluation (str "score")
            (JNum (Math_max 0 (Math_min 10 score))) in
        if stringable_value b.(body_questionId) then
          (res_json evaluation,
           push_answer sessions b.(body_sessionId) session
             (stored b evaluation w))
        else
          (res_json fallbackEvaluation,
           push_answer sessions b.(body_sessionId)
             (pushed session (stored b evaluation w))
             (stored_later b fallbackEvaluation w))
      | _ => fallback
      end
  end.

(** [app.post('/api/evaluate-answer', ...)]. *)
Definition evaluate_answer (w : World) (body : option Body)
    (sessions : gmap jsstring Session) : Response * gmap jsstring Session :=
  match body with
  | None => on_error w body sessions
  | Some b =>
    if negb (truthy b.(body_sessionId)) || negb (truthy b.(body_questionId))
       || negb (truthy b.(body_answer)) || negb (truthy b.(body_question))
    then (res_error 400 "Missing required fields", sessions)
    else
      match sessions_get sessions b.(body_sessionId) with
      | None => (res_error 404 "Session not found", sessions)
      | Some session =>
        if negb w.(model_available) then
          let fallbackEvaluation := unavailableEvaluation w.(random) in
          (res_json fallbackEvaluation,
           push_answer sessions b.(body_sessionId) session
             (stored b fallbackEvaluation w))
        else if negb (stringable_value b.(body_question)
                      && stringable_value b.(body_answer)) then
          on_error w body sessions   (* the prompt cannot be built *)
        else
          match w.(generated) with
          | None => on_error w body sessions
          | Some text => on_text w b session text sessions
          end
      end
  end.
End Handler.

(** *** A request to try the handler on *)

(** What a parser returns for an answer the AI scored 42 out of 10. *)
Definition overrated : json :=
  JObj [(str "score", JNum (Fin 42));
        (str "feedback", JStr (str "Excellent"));
        (str "strengths", JArr []);
        (str "improvements", JArr []);
        (str "keyPoints", JArr [])].

Definition example_key : jsstring := str "1700000000000".

Definition example_sessions : gmap jsstring Session :=
  {[ example_key := mkSession (str "Web") (Listed []) [] [] 0 ]}.

Definition example_body : Body :=
  mkBody (Some (JStr example_key)) (Some (of_Z 1))
         (Some (JStr (str "I would use a hash map"))) (Some (JStr (str "How"))).

Definition example_world : World := mkWorld true (Some (str "{}")) (1 # 2) 0 1.

(** *** What the properties speak about *)

(** The evaluation [e] carries a finite score between [lo] and [hi]. *)
Definition score_within (lo hi : Q) (e : json) : Prop :=
  ∃ q, prop e (str "score") = Some (JNum (Fin q)) ∧ (lo <= q <= hi)%Q.

(** [after] is [before] with, in some sessions, answers appended whose
    evaluations satisfy [ok]. *)
Definition only_adds (ok : json → Prop) (before after : gmap jsstring Session) : Prop :=
  ∀ key s', after !! key = Some s' →
    ∃ s added, before !! key = Some s ∧
               s'.(answers) = s.(answers) ++ added ∧
               Forall (λ a, ok a.(evaluation)) added.

(** [max(0, min(10, score))] as a rational number. *)
Definition clamped (score : number) : Q :=
  match score with
  | Fin q => Qmax 0 (Qmin 10 q)
  | PosInf => 10
  | NegInf => 0
  end.

(** [e] is the object the AI sent, with its score replaced by the clamped
    score. *)
Definition ai_clamped (JSON_parse : jsstring → option json) (w : World)
    (e : json) : Prop :=
  ∃ text fields score q,
    w.(generated) = Some text ∧
    JSON_parse (clean_response text) = Some (JObj fields) ∧
    field (str "score") fields = Some (JNum score) ∧
    e = assign (JObj fields) (str "score") (JNum (Fin q)) ∧
    (q == clamped score)%Q.

(** [e] is one of the three fallback evaluations of the request. *)
Definition fallen_back (w : World) (body : option Body) (e : json) : Prop :=
  e = unavailableEvaluation w.(random) ∨
  e = unparsedEvaluation w.(random) ∨
  ∃ b answer, body = Some b ∧ b.(body_answer) = Some (JStr answer) ∧
              e = lengthEvaluation (wordCount answer).

(** What the handler hands out: a fallback, or the clamped evaluation of
    the AI; in both cases with a score in the range [0, 10]. *)
Definition handed_out (JSON_parse : jsstring → option json) (w : World)
    (body : option Body) (e : json) : Prop :=
  score_within 0 10 e ∧ (fallen_back w body e ∨ ai_clamped JSON_parse w e).

(** The outcome of a request: a 200 response carries an evaluation that
    the handler hands out, and so does every answer it stored. *)
Definition request_ok (JSON_parse : jsstring → option json) (w : World)
    (body : option Body) (sessions : gmap jsstring Session)
    (out : Response * gmap jsstring Session) : Prop :=
  (out.1.(status) = 200%N → handed_out JSON_parse w body out.1.(payload)) ∧
  only_adds (handed_out JSON_parse w body) sessions out.2.

(** Every stored evaluation has its score in the range [0, 10]. *)
Definition scores_valid (sessions : gmap jsstring Session) : Prop :=
  ∀ key s a, sessions !! key = Some s → a ∈ s.(answers) →
    score_within 0 10 a.(evaluation).

End Server.

(** * Further functions of the repository *)

From Stdlib Require Import Lqa.

(** ** Further frames *)

Module Frames.
Import Frame.

(** [step3x3] with the red channel complemented. *)
Definition inverse3x3 : Frame :=
  mkFrame 3 3 [bright; bright; black;
               bright; bright; black;
               bright; bright; black].

End Frames.

(** ** The text of an AI response *)

Module Text.
Import Server.

(** [s] without the white space at its end. *)
Fixpoint trimEnd (s : jsstring) : jsstring :=
  match s with
  | [] => []
  | c :: rest =>
    match trimEnd rest with
    | [] => if is_space c then [] else [c]
    | r => c :: r
    end
  end.

(** The number of words of [s]: the places where a code unit that is not
    white space starts the string or follows white space. *)
Fixpoint words_from (at_gap : bool) (s : jsstring) : Z :=
  match s with
  | [] => 0
  | c :: rest =>
    if is_space c then words_from true rest
    else (if at_gap then 1 else 0) + words_from false rest
  end.

Definition words (s : jsstring) : Z := words_from true s.

(** The number of pieces [split_spaces] returns; it does not depend on the
    piece being read. *)
Fixpoint piece_count (in_run : bool) (s : jsstring) : Z :=
  match s with
  | [] => 1
  | c :: rest =>
    if is_space c then
      if in_run then piece_count true rest else 1 + piece_count true rest
    else piece_count false rest
  end.

Definition all_space (s : jsstring) : Prop := Forall (λ c, is_space c = true) s.

(** What a parser returns for an answer the AI scored 7.5 out of 10. *)
Definition fair : json :=
  JObj [(str "score", JNum (Fin (15 # 2)));
        (str "feedback", JStr (str "Solid"));
        (str "strengths", JArr [JStr (str "Clear")]);
        (str "improvements", JArr []);
        (str "keyPoints", JArr [])].

(** A question id without a string form. *)
Definition unprintable : json := JObj [(str "toString", of_Z 1)].

(** A world in which the AI call fails. *)
Definition failing_world : World := mkWorld true None (1 # 2) 0 1.

(** What a request answered with status 200 does to the store: the answer
    with the returned evaluation is appended to the session the request
    names.  When the question id has no string form, the clamped evaluation
    of the AI may have been appended before it, and the fallback for
    unreadable responses is what is returned. *)
Definition appended (JSON_parse : jsstring → option json) (w : World)
    (body : option Body) (sessions : gmap jsstring Session)
    (out : Response * gmap jsstring Session) : Prop :=
  ∃ b key session earlier time,
    body = Some b ∧ b.(body_sessionId) = Some (JStr key) ∧
    sessions !! key = Some session ∧
    out.2 = <[key := mkSession session.(domain) session.(questions)
                (session.(answers) ++ earlier ++
                 [mkAnswer b.(body_questionId) b.(body_question) b.(body_answer)
                           out.1.(payload) time])
                session.(scores) session.(createdAt)]> sessions ∧
    ((earlier = [] ∧ time = w.(now)) ∨
     (stringable_value b.(body_questionId) = false ∧ time = w.(later) ∧
      out.1.(payload) = unparsedEvaluation w.(random) ∧
      ∃ e, ai_clamped JSON_parse w e ∧
           earlier = [mkAnswer b.(body_questionId) b.(body_question)
                             b.(body_answer) e w.(now)])).

Definition effect (JSON_parse : jsstring → option json) (w : World)
    (body : option Body) (sessions : gmap jsstring Session)
    (out : Response * gmap jsstring Session) : Prop :=
  (out.1.(status) ∈ [400; 404; 500]%N ∧ out.2 = sessions) ∨
  (out.1.(status) = 200%N ∧ appended JSON_parse w body sessions out).

(** A request body that passes the validation of the handler. *)
Definition well_formed_request (b : Body) : Prop :=
  truthy b.(body_sessionId) = true ∧ truthy b.(body_questionId) = true ∧
  truthy b.(body_answer) = true ∧ truthy b.(body_question) = true.

(** The question id, the question and the answer of the request have a
    string form. *)
Definition printable_request (b : Body) : Prop :=
  stringable_value b.(body_questionId) = true ∧
  stringable_value b.(body_question) = true ∧
  stringable_value b.(body_answer) = true.

End Text.

(** ** The question generator *)

Module Questions.
Import Server Text.

Definition mkQuestion (id : Z) (question difficulty category : string) : json :=
  JObj [(str "id", of_Z id);
        (str "question", JStr (str question));
        (str "difficulty", JStr (str difficulty));
        (str "category", JStr (str category))].

Definition web_development : list json :=
  [mkQuestion 1 "What is the difference between HTML, CSS, and JavaScript?" "easy" "fundamentals";
   mkQuestion 2 "Explain the concept of responsive web design." "easy" "design";
   mkQuestion 3 "What are the different HTTP methods and when would you use them?" "medium" "backend";
   mkQuestion 4 "How does browser caching work and how can you control it?" "medium" "performance";
   mkQuestion 5 "Explain the concept of RESTful APIs and their principles." "medium" "backend";
   mkQuestion 6 "What are some common web security vulnerabilities and how do you prevent them?" "hard" "security";
   mkQuestion 7 "How would you optimize a web application's performance?" "hard" "performance"].

Definition data_science : list json :=
  [mkQuestion 1 "What is the difference between supervised and unsupervised learning?" "easy" "fundamentals";
   mkQuestion 2 "Explain what data preprocessing involves." "easy" "preprocessing";
   mkQuestion 3 "What is overfitting and how can you prevent it?" "medium" "modeling";
   mkQuestion 4 "How do you handle missing data in a dataset?" "medium" "preprocessing";
   mkQuestion 5 "Explain the bias-variance tradeoff." "medium" "theory";
   mkQuestion 6 "How would you design an A/B test for a new feature?" "hard" "experimentation";
   mkQuestion 7 "Explain how you would build a recommendation system." "hard" "systems"].

Definition ai_machine_learning : list json :=
  [mkQuestion 1 "What is the difference between artificial intelligence and machine learning?" "easy" "fundamentals";
   mkQuestion 2 "Explain what a neural network is and how it works." "easy" "neural-networks";
   mkQuestion 3 "What is the difference between classification and regression?" "medium" "algorithms";
   mkQuestion 4 "How do you prevent overfitting in machine learning models?" "medium" "optimization";
   mkQuestion 5 "Explain the concept of gradient descent." "medium" "optimization";
   mkQuestion 6 "What are the key components of a transformer architecture?" "hard" "deep-learning";
   mkQuestion 7 "How would you approach building a recommendation system for a streaming platform?" "hard" "systems"].

Definition product_management : list json :=
  [mkQuestion 1 "What is the role of a product manager?" "easy" "fundamentals";
   mkQuestion 2 "How do you prioritize features in a product roadmap?" "easy" "planning";
   mkQuestion 3 "What metrics would you use to measure product success?" "medium" "analytics";
   mkQuestion 4 "How do you handle conflicting stakeholder requirements?" "medium" "stakeholder-management";
   mkQuestion 5 "Describe your approach to user research and validation." "medium" "research";
   mkQuestion 6 "How would you launch a new product in a competitive market?" "hard" "strategy";
   mkQuestion 7 "Design a product strategy for entering a new market segment." "hard" "strategy"].

Definition ui_ux_design : list json :=
  [mkQuestion 1 "What is the difference between UI and UX design?" "easy" "fundamentals";
   mkQuestion 2 "Explain the importance of user personas in design." "easy" "user-research";
   mkQuestion 3 "What is the design thinking process?" "medium" "process";
   mkQuestion 4 "How do you conduct usability testing?" "medium" "testing";
   mkQuestion 5 "What are design systems and why are they important?" "medium" "systems";
   mkQuestion 6 "How would you design an accessible interface for users with disabilities?" "hard" "accessibility";
   mkQuestion 7 "Design a mobile app interface for a complex workflow." "hard" "interaction-design"].

Definition cybersecurity : list json :=
  [mkQuestion 1 "What are the main types of cyber threats?" "easy" "fundamentals";
   mkQuestion 2 "Explain the concept of defense in depth." "easy" "strategy";
   mkQuestion 3 "What is the difference between symmetric and asymmetric encryption?" "medium" "cryptography";
   mkQuestion 4 "How do you conduct a security risk assessment?" "medium" "risk-management";
   mkQuestion 5 "What are the key components of an incident response plan?" "medium" "incident-response";
   mkQuestion 6 "How would you secure a cloud infrastructure?" "hard" "cloud-security";
   mkQuestion 7 "Design a security architecture for a financial services company." "hard" "architecture"].

Definition default_questions : list json :=
  [mkQuestion 1 "Tell me about your experience in this field." "easy" "experience";
   mkQuestion 2 "What are your greatest strengths?" "easy" "personal";
   mkQuestion 3 "How do you stay updated with industry trends?" "medium" "learning";
   mkQuestion 4 "Describe a challenging project you worked on." "medium" "experience";
   mkQuestion 5 "How do you handle tight deadlines?" "medium" "work-style";
   mkQuestion 6 "Where do you see yourself in 5 years?" "hard" "career";
   mkQuestion 7 "Why should we hire you?" "hard" "motivation"].

Definition questionBank : list (jsstring * list json) :=
  [(str "Web Development", web_development);
   (str "Data Science", data_science);
   (str "AI & Machine Learning", ai_machine_learning);
   (str "Product Management", product_management);
   (str "UI/UX Design", ui_ux_design);
   (str "Cybersecurity", cybersecurity);
   (str "default", default_questions)].

Fixpoint own (key : jsstring) (bank : list (jsstring * list json)) : option (list json) :=
  match bank with
  | [] => None
  | (k, questions) :: rest =>
    if bool_decide (k = key) then Some questions else own key rest
  end.

Definition is_string (v : value) : bool :=
  match v with Some (JStr _) => true | _ => false end.

(** The filter applied to the questions of the AI. *)
Definition valid_question (q : json) : bool :=
  truthy (Some q) && is_number (prop q (str "id"))
  && is_string (prop q (str "question"))
  && is_string (prop q (str "difficulty"))
  && is_string (prop q (str "category")).

(** [s.includes(needle)]. *)
Fixpoint includes (needle s : jsstring) : bool :=
  bool_decide (take (length needle) s = needle)
  || match s with
     | [] => false
     | _ :: rest => includes needle rest
     end.

(** The property [questions] of the response, as [JSON.stringify] writes
    it: a function-valued property is left out. *)
Definition questions_property (questions : questions_value) : list (jsstring * json) :=
  match questions with
  | Listed l => [(str "questions", JArr l)]
  | Inherited f =>
    match f.(foreign_json) with
    | Some j => [(str "questions", j)]
    | None => []
    end
  end.

Section Runtime.
(** The truthy value, if any, that an object literal inherits under a
    name from [Object.prototype]. *)
Variable prototype : jsstring → option Foreign.

(** [generateFallbackQuestions]: [questionBank[domain] || questionBank['default']].
    The lookup also finds what the bank inherits; [default] is a key of the
    bank itself. *)
Definition generateFallbackQuestions (domain : jsstring) : questions_value :=
  match own domain questionBank with
  | Some questions => Listed questions
  | None =>
    match prototype domain with
    | Some inherited => Inherited inherited
    | None => Listed default_questions
    end
  end.

(** [JSON.parse]; [None] when it throws a [SyntaxError]. *)
Variable JSON_parse : jsstring → option json.

(** Store a new session under [Date.now().toString()] and answer with it.
    The one clock value [now] stands for [Date.now()] and for the
    [new Date()] of [createdAt], which the handler reads right after. *)
Definition created (w : World) (domain : jsstring) (questions : questions_value)
    (sessions : gmap jsstring Session) : Response * gmap jsstring Session :=
  let sessionId := str (pretty w.(now)) in
  (res_json (JObj ((str "sessionId", JStr sessionId) :: questions_property questions)),
   <[sessionId := mkSession domain questions [] [] w.(now)]> sessions).

Definition with_fallback (w : World) (domain : jsstring)
    (sessions : gmap jsstring Session) : Response * gmap jsstring Session :=
  let fallbackQuestions := generateFallbackQuestions domain in
  created w domain fallbackQuestions sessions.

(** The outer [catch]; [message] is [error.message]. *)
Definition on_failure (w : World) (message : jsstring) (body : option value)
    (sessions : gmap jsstring Session) : Response * gmap jsstring Session :=
  let failed := res_error 500 "Failed to generate questions. Please try again." in
  if negb (bool_decide (message = [])) && includes (str "API key") message then
    (res_error 500 "Invalid API key. Please check your GEMINI_API_KEY environment variable.",
     sessions)
  else
    match body with
    | None => (failed, sessions)         (* destructuring [undefined] throws again *)
    | Some None | Some (Some JNull) =>   (* [domain?.trim()] is [undefined] *)
      with_fallback w (str "General") sessions
    | Some (Some (JStr domain)) =>
      with_fallback w (if bool_decide (trim domain = []) then str "General"
                       else trim domain) sessions
    | Some (Some _) => (failed, sessions)    (* [domain.trim] is not a function *)
    end.

(** [app.post('/api/generate-questions', ...)]. *)
Definition generate_questions (w : World) (message : jsstring) (body : option value)
    (sessions : gmap jsstring Session) : Response * gmap jsstring Session :=
  match body with
  | None => on_failure w message body sessions
  | Some (Some (JStr domain)) =>
    if bool_decide (domain = []) || (length (trim domain) =? 0)%nat then
      (res_error 400 "Domain is required and must be a non-empty string", sessions)
    else if negb w.(model_available) then
      with_fallback w (trim domain) sessions
    else
      match w.(generated) with
      | None => on_failure w message body sessions
      | Some text =>
        let text := clean_response text in
        match JSON_parse text with
        | Some (JArr questions) =>
          let validQuestions := take 7 (List.filter valid_question questions) in
          if (length validQuestions =? 0)%nat then
            with_fallback w (trim domain) sessions
          else created w (trim domain) (Listed validQuestions) sessions
        | _ => with_fallback w (trim domain) sessions
        end
      end
  | Some _ =>
    (res_error 400 "Domain is required and must be a non-empty string", sessions)
  end.
End Runtime.

(** *** The standard runtime *)

(** A method of [Object.prototype], with the number of parameters it
    declares: [JSON.stringify] leaves it out, its [length] is that number. *)
Definition method (parameters : Z) : Foreign :=
  mkForeign None (Some (of_Z parameters)).

(** [Object.prototype] as ECMAScript defines it: its methods, and itself
    under [__proto__], an object without enumerable properties and
    without a [length]. *)
Definition Object_prototype : list (jsstring * Foreign) :=
  [(str "constructor", method 1);
   (str "__defineGetter__", method 2);
   (str "__defineSetter__", method 2);
   (str "hasOwnProperty", method 1);
   (str "__lookupGetter__", method 1);
   (str "__lookupSetter__", method 1);
   (str "isPrototypeOf", method 1);
   (str "propertyIsEnumerable", method 1);
   (str "toString", method 0);
   (str "valueOf", method 0);
   (str "__proto__", mkForeign (Some (JObj [])) None);
   (str "toLocaleString", method 0)].

Fixpoint inherited (key : jsstring) (properties : list (jsstring * Foreign))
  : option Foreign :=
  match properties with
  | [] => None
  | (k, v) :: rest => if bool_decide (k = key) then Some v else inherited key rest
  end.

Definition standard (key : jsstring) : option Foreign :=
  inherited key Object_prototype.

(** *** What the properties speak about *)

Definition numbered (questions : list json) : Prop :=
  (λ q, prop q (str "id")) <$> questions
  = (λ i, Some (of_Z i)) <$> [1; 2; 3; 4; 5; 6; 7].

(** The key of the session a request creates: [Date.now().toString()]. *)
Definition session_key (w : World) : jsstring := str (pretty w.(now)).

(** The request created a session with a list of questions and answered
    with it. *)
Definition started (w : World) (sessions : gmap jsstring Session)
    (domain : jsstring) (out : Response * gmap jsstring Session) : Prop :=
  ∃ questions,
    out.1.(payload) = JObj [(str "sessionId", JStr (session_key w));
                            (str "questions", JArr questions)] ∧
    out.2 = <[session_key w := mkSession domain (Listed questions) [] [] w.(now)]>
            sessions ∧
    (1 ≤ length questions ≤ 7)%nat ∧
    Forall (λ q, valid_question q = true) questions.

(** The request created a session whose questions are a value that the
    bank inherits under the name of the domain, and answered without a
    list of questions. *)
Definition misled (prototype : jsstring → option Foreign) (w : World)
    (sessions : gmap jsstring Session) (domain : jsstring)
    (out : Response * gmap jsstring Session) : Prop :=
  ∃ f,
    own domain questionBank = None ∧ prototype domain = Some f ∧
    out.1.(payload) = JObj ((str "sessionId", JStr (session_key w))
                            :: match f.(foreign_json) with
                               | Some j => [(str "questions", j)]
                               | None => []
                               end) ∧
    out.2 = <[session_key w := mkSession domain (Inherited f) [] [] w.(now)]>
            sessions.

(** The two outcomes of a request that stores a session. *)
Definition stored_session (prototype : jsstring → option Foreign) (w : World)
    (sessions : gmap jsstring Session)
    (out : Response * gmap jsstring Session) : Prop :=
  ∃ domain, domain ≠ [] ∧ trim domain = domain ∧
    (started w sessions domain out ∨ misled prototype w sessions domain out).

(** A question the AI may send: well formed, with the id 0. *)
Definition question_zero : json := mkQuestion 0 "What is a closure" "easy" "fundamentals".

End Questions.

(** ** The results handler *)

Module Results.
Import Server Text Questions.

(** [Math.round]: the nearest integer, a tie going up. *)
Definition Math_round (x : Q) : Z := Qfloor (x + (1 # 2))%Q.

(** The value of the decimal that [x.toFixed(1)] prints: the nearest
    multiple of a tenth, a tie going away from zero. *)
Definition toFixed1 (x : Q) : Q :=
  if Qle_bool 0 x then (inject_Z (Qfloor (x * 10 + (1 # 2))) / 10)%Q
  else (- (inject_Z (Qfloor (- x * 10 + (1 # 2))) / 10))%Q.

(** [answer.evaluation.score || 0], as an operand of [+]. *)
Inductive operand :=
| Number (q : Q)
| Throws          (* the evaluation is [null] *)
| NotNumeric.     (* an infinity, or a value that [+] would coerce *)

Definition score_operand (a : Answer) : operand :=
  match a.(evaluation) with
  | JNull => Throws
  | e =>
    match prop e (str "score") with
    | None | Some JNull | Some (JBool false) | Some (JStr []) => Number 0
    | Some (JNum (Fin q)) => if Qeq_bool q 0 then Number 0 else Number q
    | Some _ => NotNumeric
    end
  end.

Inductive total :=
| Sum (q : Q)
| Thrown
| Unmodelled.

Record Summary := mkSummary {
  summary_domain : jsstring;
  totalQuestions : value;
  answeredQuestions : nat;
  averageScore : Q;
  percentage : Z;
  summary_answers : list Answer;
  completedAt : N
}.

(** The reply of the handler.  [OutOfModel] stands for the sessions in which
    a stored score is not a finite number, where the sum leaves the
    rationals; the evaluation handler never stores such a score. *)
Inductive reply :=
| Results (s : Summary)
| Error (status : N) (message : string)
| OutOfModel.

(** [session.questions.length]. *)
Definition questions_length (questions : questions_value) : value :=
  match questions with
  | Listed l => Some (of_Z (Z.of_nat (length l)))
  | Inherited f => f.(foreign_length)
  end.

Section Rounding.
(** The rounding of a real number to the nearest double. *)
Variable fl : Q → Q.

(** [session.answers.reduce((sum, answer) => sum + (answer.evaluation.score || 0), sum)]. *)
Fixpoint reduce (sum : Q) (answers : list Answer) : total :=
  match answers with
  | [] => Sum sum
  | answer :: rest =>
    match score_operand answer with
    | Number q => reduce (fl (sum + q)%Q) rest
    | Throws => Thrown
    | NotNumeric => Unmodelled
    end
  end.

(** [app.get('/api/results/:sessionId', ...)]. *)
Definition results (now : N) (sessionId : jsstring)
    (sessions : gmap jsstring Session) : reply :=
  if bool_decide (sessionId = []) then Error 400 "Session ID is required"
  else
    match sessions !! sessionId with
    | None => Error 404 "Session not found"
    | Some session =>
      match reduce 0%Q session.(answers) with
      | Thrown => Error 500 "Failed to get results. Please try again."
      | Unmodelled => OutOfModel
      | Sum totalScore =>
        let averageScore :=
          if (0 <? length session.(answers))%nat
          then fl (totalScore / inject_Z (Z.of_nat (length session.(answers))))%Q
          else 0%Q in
        let percentage := Math_round (fl (fl (averageScore / 10)%Q * 100)%Q) in
        Results (mkSummary session.(domain) (questions_length session.(questions))
                   (length session.(answers)) (fl (toFixed1 averageScore))
                   percentage session.(answers) now)
      end
    end.
End Rounding.

(** What is asked of the rounding: it is monotone and leaves the integers
    up to 2^53 alone, as rounding to the nearest double does on the values
    met here, which stay far from the overflow threshold. *)
Definition rounding (fl : Q → Q) : Prop :=
  (∀ x y, (x <= y)%Q → (fl x <= fl y)%Q) ∧
  (∀ z, Z.abs z ≤ 2 ^ 53 → (fl (inject_Z z) == inject_Z z)%Q).

(** *** Runs of the server *)

Inductive Request :=
| Generate (w : World) (message : jsstring) (body : option value)
| Evaluate (w : World) (body : option Body).

(** The store after a run of requests. *)
Fixpoint serve (prototype : jsstring → option Foreign)
    (JSON_parse : jsstring → option json) (requests : list Request)
    (sessions : gmap jsstring Session) : gmap jsstring Session :=
  match requests with
  | [] => sessions
  | Generate w message body :: rest =>
    serve prototype JSON_parse rest
      (generate_questions prototype JSON_parse w message body sessions).2
  | Evaluate w body :: rest =>
    serve prototype JSON_parse rest (evaluate_answer JSON_parse w body sessions).2
  end.

(** The number of evaluation requests of a run. *)
Fixpoint evaluations (requests : list Request) : nat :=
  match requests with
  | [] => 0
  | Generate _ _ _ :: rest => evaluations rest
  | Evaluate _ _ :: rest => S (evaluations rest)
  end.

Definition random_in_range (request : Request) : Prop :=
  match request with
  | Generate _ _ _ => True
  | Evaluate w _ => (0 <= w.(random))%Q ∧ (w.(random) < 1)%Q
  end.

(** No session holds more than [n] answers. *)
Definition at_most (n : Z) (sessions : gmap jsstring Session) : Prop :=
  ∀ key s, sessions !! key = Some s → Z.of_nat (length s.(answers)) ≤ n.

(** A session with three answers, scored 8, 6 and 7.5. *)
Definition graded (score : Q) : Answer :=
  mkAnswer (Some (of_Z 1)) (Some (JStr (str "How"))) (Some (JStr (str "So")))
           (JObj [(str "score", JNum (Fin score))]) 0.

Definition finished_sessions : gmap jsstring Session :=
  {[ example_key := mkSession (str "Web") (Listed default_questions)
                      [graded 8; graded 6; graded (15 # 2)] [] 0 ]}.

(** An evaluation request whose question id has no string form. *)
Definition unprintable_request : Request :=
  Evaluate example_world
    (Some (mkBody (Some (JStr example_key)) (Some unprintable)
             (Some (JStr (str "I would use a hash map")))
             (Some (JStr (str "How"))))).

End Results.

(** ** The domain selection form *)

Module DomainSelection.
Import Server Text Questions.

(** The names of the preset domains, in the order of the screen. *)
Definition domains : list jsstring :=
  str <$> ["Web Development"; "Data Science"; "AI & Machine Learning";
           "Product Management"; "UI/UX Design"; "Cybersecurity"].

Record Form := mkForm {
  selectedDomain : jsstring;
  customDomain : jsstring;
  useCustomDomain : bool;
  isLoading : bool
}.

(** What a submission ends in: an error message under the form, a call of
    [onDomainSelect], or nothing while a request is running. *)
Inductive Submission :=
| ShowError (message : string)
| Select (domain : jsstring)
| Ignored.

(** [handleSubmit]. *)
Definition handleSubmit (f : Form) : Submission :=
  let domainToUse :=
    if f.(useCustomDomain) then trim f.(customDomain) else f.(selectedDomain) in
  if bool_decide (domainToUse = []) then
    ShowError "Please select a domain or enter a custom topic"
  else if f.(useCustomDomain) && (length (trim f.(customDomain)) <? 3)%nat then
    ShowError "Custom topic must be at least 3 characters long"
  else if negb f.(isLoading) then Select domainToUse
  else Ignored.

End DomainSelection.

(** ** The interview screen of the application *)

Module App.
Import Server Text.

Inductive AppState :=
| domain_selection
| interview
| results.

Record State := mkState {
  appState : AppState;
  isLoading : bool;
  error : jsstring;
  sessionId : jsstring;
  questions : list json;
  currentQuestionIndex : nat;
  interviewResults : option json
}.

(** What [fetch] and [response.json()] come to. *)
Inductive Fetched :=
| Rejected (message : jsstring)        (* the request or the parsing fails;
                                          [message] is what [setError] gets *)
| Replied (ok : bool) (status_line : jsstring) (data : json).

(** A state update, as the component asks for it. *)
Inductive Update :=
| SetAppState (s : AppState)
| SetIsLoading (b : bool)
| SetError (message : jsstring)
| NextQuestion                           (* [setCurrentQuestionIndex(prev => prev + 1)] *)
| SetResults (data : json).

Definition apply_update (st : State) (u : Update) : State :=
  match u with
  | SetAppState s =>
    mkState s st.(isLoading) st.(error) st.(sessionId) st.(questions)
            st.(currentQuestionIndex) st.(interviewResults)
  | SetIsLoading b =>
    mkState st.(appState) b st.(error) st.(sessionId) st.(questions)
            st.(currentQuestionIndex) st.(interviewResults)
  | SetError message =>
    mkState st.(appState) st.(isLoading) message st.(sessionId) st.(questions)
            st.(currentQuestionIndex) st.(interviewResults)
  | NextQuestion =>
    mkState st.(appState) st.(isLoading) st.(error) st.(sessionId) st.(questions)
            (S st.(currentQuestionIndex)) st.(interviewResults)
  | SetResults data =>
    mkState st.(appState) st.(isLoading) st.(error) st.(sessionId) st.(questions)
            st.(currentQuestionIndex) (Some data)
  end.

(** The body of the POST request for an answer. *)
Definition answer_request (st : State) (currentQuestion : json) (answer : jsstring)
  : Body :=
  mkBody (Some (JStr st.(sessionId))) (prop currentQuestion (str "id"))
         (Some (JStr answer)) (prop currentQuestion (str "question")).

(** [fetchResults]: it catches its own errors. *)
Definition fetchResults (reply : Fetched) : list Update :=
  match reply with
  | Rejected message => [SetError message]
  | Replied ok status_line resultsData =>
    if negb ok then
      [SetError (str "Failed to fetch results: " ++ status_line)]
    else if negb (truthy (Some resultsData))
            || negb (is_number (prop resultsData (str "averageScore"))) then
      [SetError (str "Invalid results response from server")]
    else [SetResults resultsData; SetAppState results]
  end.

(** [handleAnswer]: the request it posts, if any, and the state updates it
    makes, in order.  [evaluated] is the outcome of the POST, [summary] that
    of the GET that follows the last answer. *)
Definition handleAnswer (st : State) (answer : jsstring)
    (evaluated summary : Fetched) : option Body * list Update :=
  match st.(questions) !! st.(currentQuestionIndex) with
  | None => (None, [])
  | Some currentQuestion =>
    if negb (truthy (Some currentQuestion)) then (None, [])
    else
      (Some (answer_request st currentQuestion answer),
       [SetIsLoading true; SetError []] ++
       match evaluated with
       | Rejected message => [SetError message]
       | Replied ok status_line evaluation =>
         if negb ok then
           [SetError (str "Failed to evaluate answer: " ++ status_line)]
         else if negb (truthy (Some evaluation))
                 || negb (is_number (prop evaluation (str "score"))) then
           [SetError (str "Invalid evaluation response from server")]
         else if (Z.of_nat st.(currentQuestionIndex)
                  <? Z.of_nat (length st.(questions)) - 1) then
           [NextQuestion]
         else fetchResults summary
       end ++ [SetIsLoading false])
  end.

(** The state once the updates of a handler are applied. *)
Definition after (st : State) (updates : list Update) : State :=
  foldl apply_update st updates.

(** Answering in a row: each answer comes with the outcome of its POST; the
    GET after the last question has the outcome [summary].  The value is the
    list of the requests posted and the final state. *)
Fixpoint answer_all (st : State) (answers : list (jsstring * Fetched))
    (summary : Fetched) : list Body * State :=
  match answers with
  | [] => ([], st)
  | (answer, evaluated) :: rest =>
    let step := handleAnswer st answer evaluated summary in
    let run := answer_all (after st step.2) rest summary in
    (match step.1 with Some b => [b] | None => [] end ++ run.1, run.2)
  end.

Definition accepted (reply : Fetched) : Prop :=
  ∃ status_line data,
    reply = Replied true status_line data ∧
    truthy (Some data) = true ∧ is_number (prop data (str "score")) = true.

Definition summarised (reply : Fetched) : Prop :=
  ∃ status_line data,
    reply = Replied true status_line data ∧
    truthy (Some data) = true ∧
    is_number (prop data (str "averageScore")) = true.

(** An interview of two questions, about to start. *)
Definition two_questions : State :=
  mkState interview false [] example_key
          [Questions.mkQuestion 1 "What is a closure" "easy" "fundamentals";
           Questions.mkQuestion 2 "What is a promise" "medium" "async"]
          0 None.

Definition two_answers : list (jsstring * Fetched) :=
  [(str "A function with its scope", Replied true (str "200 OK") fair);
   (str "A value that arrives later", Replied true (str "200 OK") overrated)].

Definition a_summary : json := JObj [(str "averageScore", of_Z 8)].

End App.

(** ** The answer form of the interview screen *)

Module InterviewQuestion.
Import Server.

(** [handleSubmit]: the answer handed to [onAnswer], if any. *)
Definition handleSubmit (currentAnswer : jsstring) (isLoading : bool)
  : option jsstring :=
  if negb (bool_decide (trim currentAnswer = [])) && negb isLoading
  then Some (trim currentAnswer)
  else None.

End InterviewQuestion.

(** * Properties *)

(** ** Loops and numbers *)

Module JSFacts.
Import JS.

Lemma for_loop_foldl {S : Type} (body : Z → S → S) (fuel : nat) (i : Z) (s : S) :
  for_loop fuel i body s = foldl (λ s i, body i s) s (seqZ i (Z.of_nat fuel)).
Proof.
  revert i s. induction fuel as [|fuel IH]; intros i s; [done|].
  rewrite seqZ_cons by lia. cbn [for_loop foldl]. rewrite IH.
  do 2 f_equal; lia.
Qed.

Lemma for_range_foldl {S : Type} (body : Z → S → S) (lo hi : Z) (s : S) :
  for_range lo hi body s = foldl (λ s i, body i s) s (seqZ lo (hi - lo)).
Proof.
  unfold for_range. rewrite for_loop_foldl.
  destruct (Z.le_gt_cases 0 (hi - lo)) as [Hle|Hgt].
  - by rewrite Z2Nat.id.
  - rewrite !seqZ_nil; [done|lia|lia].
Qed.

Lemma for_range_empty {S : Type} (body : Z → S → S) (lo hi : Z) (s : S) :
  hi ≤ lo → for_range lo hi body s = s.
Proof.
  intros Hle. rewrite for_range_foldl, seqZ_nil; [done|lia].
Qed.

Lemma foldl_ext_in {S A : Type} (f g : S → A → S) (l : list A) (s : S) :
  (∀ a s, a ∈ l → f s a = g s a) → foldl f s l = foldl g s l.
Proof.
  revert s. induction l as [|a l IH]; intros s Hfg; [done|].
  cbn [foldl]. rewrite (Hfg a s) by left. apply IH.
  intros b t Hb. apply Hfg. by right.
Qed.

Lemma for_range_ext {S : Type} (b1 b2 : Z → S → S) (lo hi : Z) (s : S) :
  (∀ i s, lo ≤ i < hi → b1 i s = b2 i s) →
  for_range lo hi b1 s = for_range lo hi b2 s.
Proof.
  intros Hb. rewrite !for_range_foldl. apply foldl_ext_in.
  intros i t Hi. apply elem_of_seqZ in Hi. apply Hb. lia.
Qed.

(** A loop that bumps a counter where [p] holds counts the places where
    [p] holds. *)
Lemma foldl_count {A : Type} (p : A → bool) (l : list A) (c : Z) :
  foldl (λ c a, if p a then c + 1 else c) c l
  = c + Z.of_nat (length (List.filter p l)).
Proof.
  revert c. induction l as [|a l IH]; intros c; cbn [foldl List.filter].
  - cbn. lia.
  - rewrite IH. destruct (p a); cbn [length]; lia.
Qed.

Lemma filter_bind_length {A B : Type} (p : B → bool) (f : A → list B) (l : list A) :
  Z.of_nat (length (List.filter p (l ≫= f)))
  = foldr (λ a n, Z.of_nat (length (List.filter p (f a))) + n) 0 l.
Proof.
  induction l as [|a l IH]; [done|].
  rewrite bind_cons, List.filter_app, length_app. cbn [foldr]. lia.
Qed.

Lemma foldl_rows {A : Type} (g : A → Z) (l : list A) (c : Z) :
  foldl (λ c a, c + g a) c l = c + foldr (λ a n, g a + n) 0 l.
Proof.
  revert c. induction l as [|a l IH]; intros c; cbn [foldl foldr]; [lia|].
  rewrite IH. lia.
Qed.

(** The test on the squares is the test on the real square root. *)
Lemma sqrt_gt_real (v t : Z) :
  0 ≤ t → sqrt_gt (Some v) t = true ↔ (IZR t < sqrt (IZR v))%R.
Proof.
  intros Ht. cbn [sqrt_gt]. rewrite Z.ltb_lt.
  assert (Ht' : (0 <= IZR t)%R) by (by apply IZR_le).
  assert (Hsq : sqrt (IZR (t * t)) = IZR t).
  { rewrite mult_IZR. by apply sqrt_square. }
  split.
  - intros Hlt. rewrite <- Hsq. apply sqrt_lt_1.
    + apply IZR_le. nia.
    + apply IZR_le. nia.
    + by apply IZR_lt.
  - intros Hlt. apply Z.nle_gt. intros Hle.
    apply (Rlt_not_le _ _ Hlt). rewrite <- Hsq.
    destruct (Z.le_gt_cases 0 v) as [Hv|Hv].
    + apply sqrt_le_1; [by apply IZR_le|apply IZR_le; nia|by apply IZR_le].
    + rewrite (sqrt_neg_0 (IZR v)); [apply sqrt_pos|].
      apply IZR_le. lia.
Qed.

Lemma Qltb_lt (a b : Q) : Qltb a b = true ↔ (a < b)%Q.
Proof.
  unfold Qltb. rewrite negb_true_iff, <- not_true_iff_false, Qle_bool_iff.
  split; [apply Qnot_le_lt|apply Qlt_not_le].
Qed.

Lemma div_pos (a b : Z) : 0 < b → div a b = QFin (a # Z.to_pos b).
Proof.
  intros Hb. unfold div.
  destruct (Z.eqb_spec b 0) as [->|_]; [lia|].
  by rewrite Z.sgn_pos, Z.mul_1_r, Z.abs_eq by lia.
Qed.

Lemma band_zero (b : Z) : gt (div 0 b) 0.02 && lt (div 0 b) 0.15 = false.
Proof.
  unfold div. destruct (Z.eqb_spec b 0) as [->|Hb]; [done|].
  cbn [gt]. by rewrite Z.mul_0_l.
Qed.

End JSFacts.

(** ** The detector *)

Module DetectorFacts.
Import JS Detector Frame JSFacts.

Lemma interior_spec (width height x y : Z) :
  (x, y) ∈ interior width height ↔ 1 ≤ x ≤ width - 2 ∧ 1 ≤ y ≤ height - 2.
Proof.
  unfold interior. rewrite list_elem_of_bind. split.
  - intros (y' & Hx & Hy). apply list_elem_of_bind in Hx as (x' & Hp & Hx).
    apply list_elem_of_singleton in Hp. inversion Hp; subst.
    apply elem_of_seqZ in Hx, Hy. lia.
  - intros [Hx Hy]. exists y. split; [|apply elem_of_seqZ; lia].
    apply list_elem_of_bind. exists x. split; [by left|apply elem_of_seqZ; lia].
Qed.

Lemma NoDup_interior (width height : Z) : NoDup (interior width height).
Proof.
  unfold interior. apply NoDup_bind; [| |apply NoDup_seqZ].
  - intros y1 y2 [x y] _ _ H1 H2.
    apply list_elem_of_bind in H1 as (x1 & H1 & _).
    apply list_elem_of_bind in H2 as (x2 & H2 & _).
    apply list_elem_of_singleton in H1, H2. congruence.
  - intros y _. apply NoDup_bind; [| |apply NoDup_seqZ].
    + intros x1 x2 p _ _ H1 H2.
      apply list_elem_of_singleton in H1, H2. congruence.
    + intros x _. apply NoDup_singleton.
Qed.

Lemma interior_nil (width height : Z) :
  width < 3 ∨ height < 3 → interior width height = [].
Proof.
  unfold interior. intros [Hw|Hh].
  - rewrite (seqZ_nil 1 (width - 2)) by lia.
    induction (seqZ 1 (height - 2)) as [|y l IH]; [done|].
    by rewrite bind_cons, IH.
  - by rewrite (seqZ_nil 1 (height - 2)) by lia.
Qed.


Lemma filter_row_length (p : Z * Z → bool) (y : Z) (l : list Z) :
  length (List.filter p (l ≫= λ x, [(x, y)]))
  = length (List.filter (λ x, p (x, y)) l).
Proof.
  induction l as [|x l IH]; [done|].
  rewrite bind_cons. cbn [app List.filter].
  destruct (p (x, y)); cbn [length]; by rewrite IH.
Qed.

(** The counter of the nested loops is the number of interior pixels that
    pass the threshold. *)
Lemma countEdges_interior (f : ImageData) :
  countEdges f
  = Z.of_nat (length (List.filter (edge_at f)
                        (interior (Z.of_N f.(width)) (Z.of_N f.(height))))).
Proof.
  unfold countEdges. cbv zeta.
  set (w := Z.of_N f.(width)). set (h := Z.of_N f.(height)).
  rewrite for_range_foldl.
  replace (h - 1 - 1) with (h - 2) by lia.
  rewrite (foldl_ext_in _
    (λ c y, c + Z.of_nat (length (List.filter (λ x, edge_at f (x, y))
                                    (seqZ 1 (w - 2)))))).
  2:{ intros y c _. rewrite for_range_foldl.
      replace (w - 1 - 1) with (w - 2) by lia.
      apply (foldl_count (λ x, edge_at f (x, y))). }
  rewrite foldl_rows, Z.add_0_l.
  unfold interior. rewrite filter_bind_length.
  induction (seqZ 1 (h - 2)) as [|y l IH]; [done|].
  cbn [foldr]. by rewrite IH, filter_row_length.
Qed.

Lemma countEdges_small (f : ImageData) :
  (f.(width) < 3)%N ∨ (f.(height) < 3)%N → countEdges f = 0.
Proof.
  intros Hs. rewrite countEdges_interior, interior_nil; [done|lia].
Qed.

Lemma detect_no_edges (f : ImageData) :
  countEdges f = 0 → detectRectangularObject f = false.
Proof.
  intros H0. unfold detectRectangularObject, edgeRatio. cbv zeta.
  rewrite H0. apply band_zero.
Qed.

(** C1.  On a frame of width and height at least 1 the detector answers
    [edgeRatio > 0.02 && edgeRatio < 0.15], where [edgeRatio] is
    [edgeCount] divided by the full area [W * H], and [edgeCount] is the
    number of interior pixels whose gradient magnitude
    [sqrt (gx^2 + gy^2)] is strictly above 50. *)
Theorem detect_band (f : ImageData) :
  (1 ≤ f.(width))%N → (1 ≤ f.(height))%N →
  let w := Z.of_N f.(width) in
  let h := Z.of_N f.(height) in
  let edgeCount := length (List.filter (edge_at f) (interior w h)) in
  let ratio := Z.of_nat edgeCount # Z.to_pos (w * h) in
  (∀ x y, edge_at f (x, y) = true ↔
     ∃ gx gy, Detector.gx f.(data) w x y = Some gx ∧
              Detector.gy f.(data) w x y = Some gy ∧
              (50 < sqrt (IZR (gx * gx + gy * gy)))%R) ∧
  countEdges f = Z.of_nat edgeCount ∧
  edgeRatio f = QFin ratio ∧
  (detectRectangularObject f = true ↔ (0.02 < ratio ∧ ratio < 0.15)%Q).
Proof.
  intros Hw Hh w h edgeCount ratio.
  assert (Hcount : countEdges f = Z.of_nat edgeCount)
    by apply countEdges_interior.
  assert (Hratio : edgeRatio f = QFin ratio).
  { unfold edgeRatio. rewrite Hcount. apply div_pos. subst w h. nia. }
  split; [|split; [done|split; [done|]]].
  - intros x y. unfold edge_at, is_edge. cbn [fst snd]. fold w.
    destruct (Detector.gx f.(data) w x y) as [a|];
      destruct (Detector.gy f.(data) w x y) as [b|]; cbn.
    + rewrite Z.ltb_lt.
      pose proof (sqrt_gt_real (a * a + b * b) 50 ltac:(lia)) as Hs.
      cbn [sqrt_gt] in Hs. rewrite Z.ltb_lt in Hs.
      change (50 * 50) with 2500 in Hs. rewrite Hs.
      split; [intros Hlt; by exists a, b|].
      by intros (a' & b' & [= <-] & [= <-] & Hlt).
    + split; [done|]. by intros (? & ? & _ & ? & _).
    + split; [done|]. by intros (? & ? & ? & _).
    + split; [done|]. by intros (? & ? & ? & _).
  - unfold detectRectangularObject. cbv zeta. rewrite Hratio. cbn [gt lt].
    by rewrite andb_true_iff, !Qltb_lt.
Qed.

Lemma detect_band_witness :
  let f := toImageData step3x3 in
  countEdges f = 1 ∧ edgeRatio f = QFin (1 # 9) ∧
  (detectRectangularObject f = true ↔ (0.02 < 1 # 9 ∧ 1 # 9 < 0.15)%Q).
Proof.
  destruct (detect_band (toImageData step3x3)) as (_ & Hc & Hr & Hd);
    [cbn; lia|cbn; lia|].
  split; [exact Hc|split; [exact Hr|exact Hd]].
Defined.

(** *** The layout of the buffer *)

Lemma lookup_channels (pixels : list Pixel) (k c : nat) :
  (c < 4)%nat →
  (pixels ≫= channels) !! (4 * k + c)%nat = pixels !! k ≫= λ p, channels p !! c.
Proof.
  intros Hc. revert k. induction pixels as [|p l IH]; intros k; [done|].
  rewrite bind_cons. destruct k as [|k].
  - cbn [lookup list_lookup mbind option_bind].
    by rewrite lookup_app_l by (cbn; lia).
  - rewrite lookup_app_r by (cbn; lia).
    replace (4 * S k + c - length (channels p))%nat with (4 * k + c)%nat
      by (cbn [channels length]; lia).
    by rewrite IH.
Qed.

Lemma get_channel (fr : Frame) (k : Z) (c : nat) :
  (c < 4)%nat → 0 ≤ k →
  get (toImageData fr).(data) (k * 4 + Z.of_nat c)
  = byte_val <$> (fr.(pixels) !! Z.to_nat k ≫= λ p, channels p !! c).
Proof.
  intros Hc Hk. unfold get. destruct (Z.ltb_spec (k * 4 + Z.of_nat c) 0); [lia|].
  replace (Z.to_nat (k * 4 + Z.of_nat c)) with (4 * Z.to_nat k + c)%nat by lia.
  cbn [toImageData data]. by rewrite lookup_channels.
Qed.

Lemma pixel_index (w h i j : Z) :
  0 ≤ i < w → 0 ≤ j < h → 0 ≤ j * w + i < w * h.
Proof. intros Hi Hj. nia. Qed.

(** Inside the grid, the byte at [(j * W + i) * 4] is the red channel of
    pixel (i, j). *)
Lemma get_red (fr : Frame) (i j : Z) :
  well_formed fr → 0 ≤ i < Z.of_N fr.(W) → 0 ≤ j < Z.of_N fr.(H) →
  get (toImageData fr).(data) ((j * Z.of_N fr.(W) + i) * 4) = Some (P fr i j).
Proof.
  intros Hwf Hi Hj.
  pose proof (pixel_index _ _ _ _ Hi Hj) as Hk.
  rewrite <- (Z.add_0_r (_ * 4)). rewrite (get_channel fr _ 0) by lia.
  unfold P, pixel_at. rewrite (list_lookup_lookup_total_lt fr.(pixels)); [done|].
  rewrite Hwf. lia.
Qed.

Lemma get_gray (fr : Frame) (x y : Z) :
  well_formed fr → 0 ≤ x < Z.of_N fr.(W) → 0 ≤ y < Z.of_N fr.(H) →
  let p := pixel_at fr x y in
  gray (toImageData fr).(data) (Z.of_N fr.(W)) x y
  = QFin ((byte_val p.(red) + byte_val p.(green) + byte_val p.(blue)) # 3).
Proof.
  intros Hwf Hx Hy p. unfold gray. cbv zeta.
  pose proof (pixel_index _ _ _ _ Hx Hy) as Hk.
  set (k := y * Z.of_N fr.(W) + x) in *.
  pose proof (get_channel fr k 0 ltac:(lia) ltac:(lia)) as H0.
  pose proof (get_channel fr k 1 ltac:(lia) ltac:(lia)) as H1.
  pose proof (get_channel fr k 2 ltac:(lia) ltac:(lia)) as H2.
  rewrite Z.add_0_r in H0.
  change (Z.of_nat 1) with 1 in H1. change (Z.of_nat 2) with 2 in H2.
  rewrite H0, H1, H2.
  rewrite (list_lookup_lookup_total_lt fr.(pixels)) by (rewrite Hwf; lia).
  fold k in p. cbn [mbind option_bind fmap option_fmap option_map channels lookup list_lookup add div_num].
  by rewrite div_pos.
Qed.

Lemma gradients_red (fr : Frame) (x y : Z) :
  well_formed fr →
  1 ≤ x ≤ Z.of_N fr.(W) - 2 → 1 ≤ y ≤ Z.of_N fr.(H) - 2 →
  let d := (toImageData fr).(data) in
  let w := Z.of_N fr.(W) in
  gx d w x y
  = Some (- P fr (x-1) (y-1) + P fr (x+1) (y-1)
          - 2 * P fr (x-1) y + 2 * P fr (x+1) y
          - P fr (x-1) (y+1) + P fr (x+1) (y+1)) ∧
  gy d w x y
  = Some (- P fr (x-1) (y-1) - 2 * P fr x (y-1) - P fr (x+1) (y-1)
          + P fr (x-1) (y+1) + 2 * P fr x (y+1) + P fr (x+1) (y+1)).
Proof.
  intros Hwf Hx Hy d w. unfold gx, gy. subst d w.
  rewrite !get_red by (done || lia).
  cbn. split; f_equal; lia.
Qed.

(** C2.  At an interior pixel of a well-formed frame the two gradients
    are the 3x3 Sobel sums over the red channel [P] of the eight
    neighbours, read straight from the buffer; the grayscale mean of the
    pixel is computed next to them and enters neither. *)
Theorem sobel_reads_red (fr : Frame) (x y : Z) :
  well_formed fr →
  1 ≤ x ≤ Z.of_N fr.(W) - 2 → 1 ≤ y ≤ Z.of_N fr.(H) - 2 →
  let d := (toImageData fr).(data) in
  let w := Z.of_N fr.(W) in
  let p := pixel_at fr x y in
  gx d w x y
  = Some (- P fr (x-1) (y-1) + P fr (x+1) (y-1)
          - 2 * P fr (x-1) y + 2 * P fr (x+1) y
          - P fr (x-1) (y+1) + P fr (x+1) (y+1)) ∧
  gy d w x y
  = Some (- P fr (x-1) (y-1) - 2 * P fr x (y-1) - P fr (x+1) (y-1)
          + P fr (x-1) (y+1) + 2 * P fr x (y+1) + P fr (x+1) (y+1)) ∧
  gray d w x y
  = QFin ((byte_val p.(red) + byte_val p.(green) + byte_val p.(blue)) # 3).
Proof.
  intros Hwf Hx Hy d w p.
  destruct (gradients_red fr x y Hwf Hx Hy) as [Hgx Hgy].
  split; [exact Hgx|split; [exact Hgy|]].
  apply get_gray; [done|lia|lia].
Qed.

Lemma sobel_reads_red_witness :
  let d := (toImageData step3x3).(data) in
  gx d 3 1 1 = Some 1020 ∧ gy d 3 1 1 = Some 0 ∧ gray d 3 1 1 = QFin (0 # 3).
Proof.
  apply (sobel_reads_red step3x3 1 1); [reflexivity|cbn; lia|cbn; lia].
Defined.

(** C3.  The detector returns a boolean on every frame, and it is [false]
    on a frame of width 0 or height 0, where no interior pixel exists. *)
Theorem detect_total (f : ImageData) :
  ∃ present : bool,
    detectRectangularObject f = present ∧
    (f.(width) = 0%N ∨ f.(height) = 0%N →
     interior (Z.of_N f.(width)) (Z.of_N f.(height)) = [] ∧
     countEdges f = 0 ∧ present = false).
Proof.
  exists (detectRectangularObject f). split; [done|]. intros Hz.
  assert (Hs : (f.(width) < 3)%N ∨ (f.(height) < 3)%N) by lia.
  split; [apply interior_nil; lia|].
  split; [by apply countEdges_small|].
  by apply detect_no_edges, countEdges_small.
Qed.

Lemma detect_total_witness :
  detectRectangularObject (mkImageData [] 0 0) = false.
Proof.
  destruct (detect_total (mkImageData [] 0 0)) as (present & <- & Hz).
  apply Hz. left. reflexivity.
Defined.

(** C9.  A frame narrower or lower than 3 has no interior pixel: the
    loops run zero times, [edgeCount] stays 0 and the answer is [false]. *)
Theorem detect_small (f : ImageData) :
  (f.(width) < 3)%N ∨ (f.(height) < 3)%N →
  interior (Z.of_N f.(width)) (Z.of_N f.(height)) = [] ∧
  countEdges f = 0 ∧
  detectRectangularObject f = false.
Proof.
  intros Hs. split; [apply interior_nil; lia|].
  split; [by apply countEdges_small|].
  by apply detect_no_edges, countEdges_small.
Qed.

Lemma detect_small_witness :
  detectRectangularObject (toImageData (uniform 2 7 bright)) = false.
Proof.
  apply (detect_small (toImageData (uniform 2 7 bright))).
  left. cbn. lia.
Defined.




(** *** Flat frames *)

Lemma well_formed_uniform (w h : N) (p : Pixel) : well_formed (uniform w h p).
Proof. unfold well_formed, uniform. cbn. apply length_replicate. Qed.

Lemma P_uniform (w h : N) (p : Pixel) (i j : Z) :
  0 ≤ i < Z.of_N w → 0 ≤ j < Z.of_N h →
  P (uniform w h p) i j = byte_val p.(red).
Proof.
  intros Hi Hj. pose proof (pixel_index _ _ _ _ Hi Hj) as Hk.
  unfold P, pixel_at, uniform. cbn [pixels W].
  rewrite lookup_total_replicate_2; [done|lia].
Qed.

Lemma gradients_uniform (w h : N) (p : Pixel) (x y : Z) :
  1 ≤ x ≤ Z.of_N w - 2 → 1 ≤ y ≤ Z.of_N h - 2 →
  let d := (toImageData (uniform w h p)).(data) in
  gx d (Z.of_N w) x y = Some 0 ∧ gy d (Z.of_N w) x y = Some 0.
Proof.
  intros Hx Hy d.
  destruct (gradients_red (uniform w h p) x y (well_formed_uniform w h p) Hx Hy)
    as [Hgx Hgy].
  cbn [uniform W] in Hgx, Hgy. subst d.
  rewrite Hgx, Hgy, !P_uniform by lia.
  split; f_equal; lia.
Qed.

Lemma filter_none {A : Type} (p : A → bool) (l : list A) :
  (∀ a, a ∈ l → p a = false) → List.filter p l = [].
Proof.
  induction l as [|a l IH]; intros Hp; [done|].
  cbn [List.filter]. rewrite (Hp a) by left.
  apply IH. intros b Hb. apply Hp. by right.
Qed.

Lemma countEdges_uniform (w h : N) (p : Pixel) :
  countEdges (toImageData (uniform w h p)) = 0.
Proof.
  rewrite countEdges_interior, filter_none; [done|].
  intros [x y] Hin. apply interior_spec in Hin as [Hx Hy].
  change (Z.of_N (toImageData (uniform w h p)).(width)) with (Z.of_N w) in *.
  change (Z.of_N (toImageData (uniform w h p)).(height)) with (Z.of_N h) in *.
  destruct (gradients_uniform w h p x y Hx Hy) as [Hgx Hgy].
  unfold edge_at, is_edge. cbn [fst snd].
  change (Z.of_N (toImageData (uniform w h p)).(width)) with (Z.of_N w).
  by rewrite Hgx, Hgy.
Qed.

(** C5.  On a frame whose pixels all have one colour both gradients are 0
    at every interior pixel, so [edgeCount] is 0, [edgeRatio] is 0 and the
    detector answers [false]. *)
Theorem flat_frame (w h : N) (p : Pixel) :
  (1 ≤ w)%N → (1 ≤ h)%N →
  let f := toImageData (uniform w h p) in
  (∀ x y, (x, y) ∈ interior (Z.of_N w) (Z.of_N h) →
     gx f.(data) (Z.of_N w) x y = Some 0 ∧
     gy f.(data) (Z.of_N w) x y = Some 0 ∧
     is_edge f.(data) (Z.of_N w) x y = false) ∧
  countEdges f = 0 ∧
  edgeRatio f = QFin (0 # Z.to_pos (Z.of_N w * Z.of_N h)) ∧
  detectRectangularObject f = false.
Proof.
  intros Hw Hh f. subst f. split; [|split; [|split]].
  - intros x y Hin. apply interior_spec in Hin as [Hx Hy].
    destruct (gradients_uniform w h p x y Hx Hy) as [Hgx Hgy].
    split; [done|split; [done|]].
    unfold is_edge. by rewrite Hgx, Hgy.
  - apply countEdges_uniform.
  - unfold edgeRatio. rewrite countEdges_uniform. apply div_pos.
    cbn [toImageData uniform width height]. nia.
  - apply detect_no_edges, countEdges_uniform.
Qed.

Lemma flat_frame_witness :
  detectRectangularObject (toImageData (uniform 10 10 gray128)) = false.
Proof.
  apply (flat_frame 10 10 gray128); lia.
Defined.

(** *** What the answer depends on *)

Lemma gradients_agree (f1 f2 : ImageData) (w h x y : Z) :
  (∀ k, 0 ≤ k < w * h → get f1.(data) (k * 4) = get f2.(data) (k * 4)) →
  1 ≤ x ≤ w - 2 → 1 ≤ y ≤ h - 2 →
  gx f1.(data) w x y = gx f2.(data) w x y ∧
  gy f1.(data) w x y = gy f2.(data) w x y.
Proof.
  intros Hred Hx Hy. unfold gx, gy.
  assert (Hn : ∀ dx dy, -1 ≤ dx ≤ 1 → -1 ≤ dy ≤ 1 →
            get f1.(data) (((y + dy) * w + (x + dx)) * 4)
            = get f2.(data) (((y + dy) * w + (x + dx)) * 4)).
  { intros dx dy Hdx Hdy. apply Hred. apply pixel_index; lia. }
  pose proof (Hn (-1) (-1) ltac:(lia) ltac:(lia)) as H00.
  pose proof (Hn 0 (-1) ltac:(lia) ltac:(lia)) as H10.
  pose proof (Hn 1 (-1) ltac:(lia) ltac:(lia)) as H20.
  pose proof (Hn (-1) 0 ltac:(lia) ltac:(lia)) as H01.
  pose proof (Hn 1 0 ltac:(lia) ltac:(lia)) as H21.
  pose proof (Hn (-1) 1 ltac:(lia) ltac:(lia)) as H02.
  pose proof (Hn 0 1 ltac:(lia) ltac:(lia)) as H12.
  pose proof (Hn 1 1 ltac:(lia) ltac:(lia)) as H22.
  rewrite ?Z.add_0_r in *.
  change (y + -1) with (y - 1) in *. change (x + -1) with (x - 1) in *.
  by rewrite H00, H10, H20, H01, H21, H02, H12, H22.
Qed.

(** C8.  Two frames of the same width and height whose red channels agree
    at every pixel get the same answer, whatever their green, blue and
    alpha channels hold. *)
Theorem red_channel_only (f1 f2 : ImageData) :
  f1.(width) = f2.(width) → f1.(height) = f2.(height) →
  (∀ k, 0 ≤ k < Z.of_N f1.(width) * Z.of_N f1.(height) →
     get f1.(data) (k * 4) = get f2.(data) (k * 4)) →
  countEdges f1 = countEdges f2 ∧
  detectRectangularObject f1 = detectRectangularObject f2.
Proof.
  intros Hw Hh Hred.
  assert (Hc : countEdges f1 = countEdges f2).
  { rewrite !countEdges_interior, <- Hw, <- Hh. do 2 f_equal.
    apply List.filter_ext_in. intros [x y] Hin.
    apply list_elem_of_In, interior_spec in Hin as [Hx Hy].
    unfold edge_at, is_edge. cbn [fst snd]. rewrite <- Hw.
    destruct (gradients_agree f1 f2 _ _ x y Hred Hx Hy) as [-> ->].
    done. }
  split; [done|].
  unfold detectRectangularObject, edgeRatio. cbv zeta.
  by rewrite Hc, Hw, Hh.
Qed.

Lemma red_channel_only_witness :
  detectRectangularObject (toImageData step3x3)
  = detectRectangularObject (toImageData tinted3x3).
Proof.
  apply (red_channel_only (toImageData step3x3) (toImageData tinted3x3));
    [reflexivity|reflexivity|].
  intros k Hk. cbn in Hk.
  assert (Hcases : k = 0 ∨ k = 1 ∨ k = 2 ∨ k = 3 ∨ k = 4 ∨ k = 5 ∨
                   k = 6 ∨ k = 7 ∨ k = 8) by lia.
  destruct Hcases as [->|[->|[->|[->|[->|[->|[->|[->| ->]]]]]]]]; reflexivity.
Defined.

End DetectorFacts.

(** ** The detector and the store *)

Module ImperativeFacts.
Import JS Detector Frame Imperative.

Lemma bind_pure {A B : Type} (m : M A) (k : A → M B) (a : A) (s : Store) :
  m s = (a, s) → (m ≫= k) s = k a s.
Proof. intros Hm. unfold mbind, M_bind. by rewrite Hm. Qed.

Lemma read_pure (data : N) (i : Z) (s : Store) :
  read data i s = (get (s.(arrays) !!! data) i, s).
Proof. reflexivity. Qed.

Lemma gray_pure (data : N) (width x y : Z) (s : Store) :
  gray data width x y s = (Detector.gray (s.(arrays) !!! data) width x y, s).
Proof. reflexivity. Qed.

Lemma gx_pure (data : N) (width x y : Z) (s : Store) :
  gx data width x y s = (Detector.gx (s.(arrays) !!! data) width x y, s).
Proof. reflexivity. Qed.

Lemma gy_pure (data : N) (width x y : Z) (s : Store) :
  gy data width x y s = (Detector.gy (s.(arrays) !!! data) width x y, s).
Proof. reflexivity. Qed.

Lemma for_loop_pure {S : Type} (body : Z → S → M S) (pure : Z → S → S)
    (s : Store) :
  (∀ i acc, body i acc s = (pure i acc, s)) →
  ∀ fuel i acc, for_loop fuel i body acc s = (JS.for_loop fuel i pure acc, s).
Proof.
  intros Hbody. induction fuel as [|fuel IH]; intros i acc; [done|].
  cbn [for_loop JS.for_loop].
  by rewrite (bind_pure _ _ (pure i acc)), IH.
Qed.

Lemma for_range_pure {S : Type} (body : Z → S → M S) (pure : Z → S → S)
    (s : Store) (lo hi : Z) (acc : S) :
  (∀ i acc, body i acc s = (pure i acc, s)) →
  for_range lo hi body acc s = (JS.for_range lo hi pure acc, s).
Proof. intros Hbody. by apply for_loop_pure. Qed.

(** A call leaves the store as it found it, and its result is what the
    function of the frame gives on the bytes that the image object refers
    to. *)
Lemma detect_refines (imageData : ImageObject) (s : Store) :
  detectRectangularObject imageData s
  = (Detector.detectRectangularObject (snapshot s imageData), s).
Proof.
  unfold detectRectangularObject. cbv zeta.
  erewrite bind_pure; [reflexivity|].
  unfold countEdges. cbv zeta. cbn [snapshot data width height].
  apply for_range_pure. intros y edgeCount.
  apply for_range_pure. intros x edgeCount'.
  erewrite bind_pure by apply gray_pure.
  erewrite bind_pure by apply gx_pure.
  erewrite bind_pure by apply gy_pure.
  reflexivity.
Qed.

(** C6.  A call of the detector returns the store unchanged, whatever the
    store holds, and two calls on image objects that hold the same bytes,
    width and height give the same answer, in whatever stores they run:
    the typed arrays may sit at different addresses, and the state of the
    component and the other arrays may differ.  The answer is the value of
    a function of the frame alone. *)
Theorem detect_deterministic (s1 s2 : Store) (frame1 frame2 : ImageObject) :
  snapshot s1 frame1 = snapshot s2 frame2 →
  let call1 := detectRectangularObject frame1 s1 in
  let call2 := detectRectangularObject frame2 s2 in
  call1.1 = call2.1 ∧ call1.2 = s1 ∧ call2.2 = s2 ∧
  call1.1 = Detector.detectRectangularObject (snapshot s1 frame1).
Proof.
  intros Hsame call1 call2. subst call1 call2.
  rewrite !detect_refines. cbn [fst snd]. by rewrite Hsame.
Qed.

(** Two ticks of the sampler: the same frame is read into two typed arrays,
    and the component changes its state in between. *)
Lemma detect_deterministic_witness :
  let frame := toImageData step3x3 in
  let s1 := (getImageData 1 frame empty_store).2 in
  let s2 := (getImageData 2 frame (setPhoneDetected true s1).2).2 in
  (detectRectangularObject (mkImageObject 1 3 3) s1).1
  = (detectRectangularObject (mkImageObject 2 3 3) s2).1 ∧
  (detectRectangularObject (mkImageObject 1 3 3) s1).2 = s1 ∧
  (detectRectangularObject (mkImageObject 2 3 3) s2).2 = s2 ∧
  (detectRectangularObject (mkImageObject 1 3 3) s1).1
  = Detector.detectRectangularObject (snapshot s1 (mkImageObject 1 3 3)).
Proof.
  intros frame s1 s2.
  apply (detect_deterministic s1 s2 (mkImageObject 1 3 3) (mkImageObject 2 3 3)).
  reflexivity.
Defined.

(** The answer follows the bytes: the same image object gives another
    answer once its typed array is overwritten. *)
Example overwritten_frame :
  let s1 := (getImageData 1 (toImageData step3x3) empty_store).2 in
  let s2 := (getImageData 1 (toImageData (uniform 3 3 black)) s1).2 in
  (detectRectangularObject (mkImageObject 1 3 3) s1).1 = true ∧
  (detectRectangularObject (mkImageObject 1 3 3) s2).1 = false.
Proof. split; rewrite detect_refines; reflexivity. Qed.

End ImperativeFacts.

(** ** The tick of the camera component *)

Module CameraRecorderFacts.
Import Detector Frame CameraRecorder.

(** Whatever the stored state, the tick decides from the frame and from
    [this] alone. *)
Lemma detectPhone_present (this : ThisBinding) (f : ImageData) :
  detectRectangularObject f = true →
  detectPhone this (Some f)
  = match this with
    | ThisUndefined => ThrowTypeError
    | ThisObject v =>
      if default false v then Normal []
      else Normal [Do (SetPhoneDetected true);
                   Do (SetShowPhoneToast true);
                   SetTimeout [SetShowPhoneToast false] 5000]
    end.
Proof.
  intros Hd. unfold detectPhone. cbv zeta. rewrite Hd.
  destruct this as [|[[|]|]]; reflexivity.
Qed.

(** C7 fails on the code.  Take two ticks in a row on the frame
    [step3x3], on which the detector answers [true], starting with no
    phone stored.  The specification notifies on the first tick only.  In
    the module, where [this] is [undefined], each tick throws before any
    state update and nothing is ever shown; with [this] an object, the
    result is the same on both ticks: a toast (hidden again by a timer of
    5000 ms) on each of them when [this.phoneDetected] is falsy, none
    otherwise. *)
Theorem detectPhone_misses_edge :
  let f := toImageData step3x3 in
  detectRectangularObject f = true ∧
  edge_notifications false [true; true] = [true; false] ∧
  detectPhone ThisUndefined (Some f) = ThrowTypeError ∧
  notifications ThisUndefined [f; f] = [false; false] ∧
  detectPhone (ThisObject None) (Some f)
  = Normal [Do (SetPhoneDetected true);
            Do (SetShowPhoneToast true);
            SetTimeout [SetShowPhoneToast false] 5000] ∧
  ∀ this, notifications this [f; f]
          ≠ edge_notifications false (detectRectangularObject <$> [f; f]).
Proof.
  cbv zeta. repeat split; try reflexivity.
  intros [|[[|]|]]; discriminate.
Qed.

End CameraRecorderFacts.

(** ** The answer-evaluation handler *)

Module ServerFacts.
Import Server.

Example wordCount_two : wordCount (str "  hello   world ") = 2.
Proof. reflexivity. Qed.

Example wordCount_blank : wordCount (str "   ") = 1.
Proof. reflexivity. Qed.

Example fences_removed :
  trim (remove_fence (str "```") 0
          (remove_fence (str "```json") 0 ([96; 96; 96] ++ str "json" ++ [10] ++ str "{}" ++ [10; 96; 96; 96])%N))
  = str "{}".
Proof. reflexivity. Qed.

Lemma field_set_field (k : jsstring) (v : json) (fields : list (jsstring * json)) :
  field k (set_field k v fields) = Some v.
Proof.
  induction fields as [|[k' v'] fields IH]; cbn [set_field field].
  - by rewrite bool_decide_eq_true_2.
  - destruct (bool_decide_reflect (k' = k)) as [->|Hne]; cbn [field].
    + by rewrite bool_decide_eq_true_2.
    + by rewrite bool_decide_eq_false_2.
Qed.

Lemma score_of_object (z : Z) (rest : list (jsstring * json)) (lo hi : Z) :
  lo ≤ z ≤ hi →
  score_within (inject_Z lo) (inject_Z hi) (JObj ((str "score", of_Z z) :: rest)).
Proof.
  intros [Hlo Hhi]. exists (inject_Z z). split.
  - cbn [prop field]. by rewrite bool_decide_eq_true_2.
  - by rewrite <- !Zle_Qle.
Qed.

Lemma score_within_weaken (lo hi lo' hi' : Q) (e : json) :
  (lo' <= lo)%Q → (hi <= hi')%Q →
  score_within lo hi e → score_within lo' hi' e.
Proof.
  intros Hlo Hhi (q & Hq & H1 & H2). exists q. split; [done|].
  split; [by apply Qle_trans with lo|by apply Qle_trans with hi].
Qed.

Lemma floor_scaled (r : Q) (n : Z) :
  0 < n → (0 <= r)%Q → (r < 1)%Q → 0 ≤ Qfloor (r * inject_Z n) ≤ n - 1.
Proof.
  intros Hn H0 H1.
  assert (Hn' : (0 < inject_Z n)%Q).
  { change (inject_Z 0 < inject_Z n)%Q. by rewrite <- Zlt_Qlt. }
  split.
  - change 0 with (Qfloor 0). apply Qfloor_resp_le.
    apply Qmult_le_0_compat; [done|by apply Qlt_le_weak].
  - assert (Hlt : (inject_Z (Qfloor (r * inject_Z n)) < inject_Z n)%Q).
    { apply Qle_lt_trans with (r * inject_Z n)%Q; [apply Qfloor_le|].
      rewrite <- (Qmult_1_l (inject_Z n)) at 2.
      by apply Qmult_lt_compat_r. }
    rewrite <- Zlt_Qlt in Hlt. lia.
Qed.

Lemma unavailable_range (r : Q) :
  (0 <= r)%Q → (r < 1)%Q → score_within 5 8 (unavailableEvaluation r).
Proof.
  intros H0 H1. pose proof (floor_scaled r 4 ltac:(lia) H0 H1) as Hf.
  apply (score_of_object _ _ 5 8). change (inject_Z 4) with 4%Q in Hf. lia.
Qed.

Lemma unparsed_range (r : Q) :
  (0 <= r)%Q → (r < 1)%Q → score_within 6 8 (unparsedEvaluation r).
Proof.
  intros H0 H1. pose proof (floor_scaled r 3 ltac:(lia) H0 H1) as Hf.
  apply (score_of_object _ _ 6 8). change (inject_Z 3) with 3%Q in Hf. lia.
Qed.

Lemma length_range (wordCount : Z) : score_within 4 8 (lengthEvaluation wordCount).
Proof. apply (score_of_object _ _ 4 8). unfold baseScore. lia. Qed.

Lemma clamp_range (score : number) :
  ∃ q, Math_max 0 (Math_min 10 score) = Fin q ∧
       (q == clamped score)%Q ∧ (0 <= q <= 10)%Q.
Proof.
  destruct score as [q| |]; cbn [Math_min Math_max clamped].
  - pose proof (Q.min_spec 10 q) as Hmin.
    pose proof (Q.max_spec 0 (Qmin 10 q)) as Hmax.
    destruct (Qle_bool 10 q) eqn:H10; cbn [Math_max].
    + apply Qle_bool_iff in H10. exists 10%Q. split; [done|].
      destruct Hmin as [[? ?]|[? ?]], Hmax as [[? ?]|[? ?]];
        (split; [|split]); lra.
    + apply not_true_iff_false in H10. rewrite Qle_bool_iff in H10.
      destruct (Qle_bool q 0) eqn:H0.
      * apply Qle_bool_iff in H0. exists 0%Q. split; [done|].
        destruct Hmin as [[? ?]|[? ?]], Hmax as [[? ?]|[? ?]];
          (split; [|split]); lra.
      * apply not_true_iff_false in H0. rewrite Qle_bool_iff in H0.
        exists q. split; [done|].
        destruct Hmin as [[? ?]|[? ?]], Hmax as [[? ?]|[? ?]];
          (split; [|split]); lra.
  - exists 10%Q. split; [done|]. split; [reflexivity|split; lra].
  - exists 0%Q. split; [done|]. split; [reflexivity|split; lra].
Qed.

Lemma only_adds_weaken (ok ok' : json → Prop) (before after : gmap jsstring Session) :
  (∀ e, ok e → ok' e) → only_adds ok before after → only_adds ok' before after.
Proof.
  intros Himp Hadd key s' Hs'.
  destruct (Hadd key s' Hs') as (s & added & Hs & Heq & Hok).
  exists s, added. split; [done|]. split; [done|].
  apply (Forall_impl _ _ _ Hok). intros a. apply Himp.
Qed.

Lemma only_adds_refl (ok : json → Prop) (sessions : gmap jsstring Session) :
  only_adds ok sessions sessions.
Proof.
  intros key s Hs. exists s, []. by rewrite app_nil_r.
Qed.

Lemma only_adds_push (ok : json → Prop) (sessions : gmap jsstring Session)
    (sessionId : value) (session : Session) (a : Answer) :
  sessions_get sessions sessionId = Some session →
  ok a.(evaluation) →
  only_adds ok sessions (push_answer sessions sessionId session a).
Proof.
  intros Hget Hok. destruct sessionId as [[| | |key| |]|]; try done.
  cbn [sessions_get push_answer] in *.
  intros k s' Hs'. destruct (decide (key = k)) as [<-|Hne].
  - rewrite lookup_insert_eq in Hs'. injection Hs' as <-.
    exists session, [a]. cbn [answers]. by repeat constructor.
  - rewrite lookup_insert_ne in Hs' by done.
    exists s', []. by rewrite app_nil_r.
Qed.

Lemma only_adds_push_twice (ok : json → Prop) (sessions : gmap jsstring Session)
    (sessionId : value) (session : Session) (a a' : Answer) :
  sessions_get sessions sessionId = Some session →
  ok a.(evaluation) → ok a'.(evaluation) →
  only_adds ok sessions (push_answer sessions sessionId (pushed session a) a').
Proof.
  intros Hget Hok Hok'. destruct sessionId as [[| | |key| |]|]; try done.
  cbn [sessions_get push_answer] in *.
  intros k s' Hs'. destruct (decide (key = k)) as [<-|Hne].
  - rewrite lookup_insert_eq in Hs'. injection Hs' as <-.
    exists session, [a; a']. cbn [answers pushed]. rewrite <- app_assoc.
    by repeat constructor.
  - rewrite lookup_insert_ne in Hs' by done.
    exists s', []. by rewrite app_nil_r.
Qed.

Lemma only_adds_valid (before after : gmap jsstring Session) :
  only_adds (score_within 0 10) before after →
  scores_valid before → scores_valid after.
Proof.
  intros Hadd Hv key s' a Hs' Ha.
  destruct (Hadd key s' Hs') as (s & added & Hs & Heq & Hok).
  rewrite Heq in Ha. apply elem_of_app in Ha as [Ha|Ha].
  - by apply (Hv key s).
  - by apply (proj1 (Forall_forall _ _) Hok).
Qed.

Section Handler.
Variable JSON_parse : jsstring → option json.
Variables (w : World) (sessions : gmap jsstring Session).
Hypothesis random_lower : (0 <= w.(random))%Q.
Hypothesis random_upper : (w.(random) < 1)%Q.

Lemma request_ok_error (body : option Body) (code : N) (msg : string) :
  code ≠ 200%N →
  request_ok JSON_parse w body sessions (res_error code msg, sessions).
Proof. intros Hc. split; [done|apply only_adds_refl]. Qed.

Lemma request_ok_stored (body : option Body) (b : Body) (session : Session)
    (e : json) :
  sessions_get sessions b.(body_sessionId) = Some session →
  handed_out JSON_parse w body e →
  request_ok JSON_parse w body sessions
    (res_json e, push_answer sessions b.(body_sessionId) session (stored b e w)).
Proof.
  intros Hget He. split; [done|]. by apply only_adds_push.
Qed.

Lemma unavailable_handed_out (body : option Body) :
  handed_out JSON_parse w body (unavailableEvaluation w.(random)).
Proof.
  split; [|by left; left].
  apply (score_within_weaken 5 8); [done|done|by apply unavailable_range].
Qed.

Lemma unparsed_handed_out (body : option Body) :
  handed_out JSON_parse w body (unparsedEvaluation w.(random)).
Proof.
  split; [|by left; right; left].
  apply (score_within_weaken 6 8); [done|done|by apply unparsed_range].
Qed.

Lemma length_handed_out (b : Body) (answer : jsstring) :
  b.(body_answer) = Some (JStr answer) →
  handed_out JSON_parse w (Some b) (lengthEvaluation (wordCount answer)).
Proof.
  intros Hanswer. split.
  - apply (score_within_weaken 4 8); [done|done|apply length_range].
  - left. right. right. by exists b, answer.
Qed.

Lemma on_error_ok (body : option Body) :
  request_ok JSON_parse w body sessions (on_error w body sessions).
Proof.
  unfold on_error. cbv zeta.
  destruct body as [b|]; [|by apply request_ok_error].
  destruct (sessions_get sessions b.(body_sessionId)) as [session|] eqn:Hget;
    [|by apply request_ok_error].
  destruct b.(body_answer) as [[| | |answer| |]|] eqn:Hanswer;
    try (by apply request_ok_error).
  apply request_ok_stored; [done|]. by apply length_handed_out.
Qed.

Lemma clamped_handed_out (body : option Body) (text : jsstring)
    (fields : list (jsstring * json)) (score : number) :
  w.(generated) = Some text →
  JSON_parse (clean_response text) = Some (JObj fields) →
  field (str "score") fields = Some (JNum score) →
  handed_out JSON_parse w body
    (assign (JObj fields) (str "score") (JNum (Math_max 0 (Math_min 10 score)))).
Proof.
  intros Hgen Hparse Hscore.
  destruct (clamp_range score) as (q & Hq & Heq & Hrange). rewrite Hq. split.
  - exists q. split; [|done]. cbn [assign prop]. by rewrite field_set_field.
  - right. by exists text, fields, score, q.
Qed.

Lemma on_text_ok (body : option Body) (b : Body) (session : Session)
    (text : jsstring) :
  w.(generated) = Some text →
  sessions_get sessions b.(body_sessionId) = Some session →
  request_ok JSON_parse w body sessions
    (on_text JSON_parse w b session text sessions).
Proof.
  intros Hgen Hget.
  assert (Hfallback :
    request_ok JSON_parse w body sessions
      (res_json (unparsedEvaluation w.(random)),
       push_answer sessions b.(body_sessionId) session
         (stored b (unparsedEvaluation w.(random)) w))).
  { apply request_ok_stored; [done|apply unparsed_handed_out]. }
  unfold on_text. cbv zeta.
  destruct (JSON_parse _) as [[| | | | |fields]|] eqn:Hparse; try exact Hfallback.
  destruct (negb _ || _ || _ || _ || _); [exact Hfallback|].
  destruct (prop (JObj fields) (str "score")) as [[| |score| | |]|] eqn:Hscore;
    try exact Hfallback.
  pose proof (clamped_handed_out body text fields score Hgen Hparse Hscore) as Hai.
  destruct (stringable_value _).
  - by apply request_ok_stored.
  - split; [intros _; apply unparsed_handed_out|].
    apply only_adds_push_twice; [done|exact Hai|apply unparsed_handed_out].
Qed.

Lemma evaluate_answer_ok (body : option Body) :
  request_ok JSON_parse w body sessions
    (evaluate_answer JSON_parse w body sessions).
Proof.
  unfold evaluate_answer. destruct body as [b|]; [|apply on_error_ok].
  destruct (negb _ || _ || _ || _); [by apply request_ok_error|].
  destruct (sessions_get sessions b.(body_sessionId)) as [session|] eqn:Hget;
    [|by apply request_ok_error].
  destruct (negb w.(model_available)).
  - apply request_ok_stored; [done|apply unavailable_handed_out].
  - destruct (negb (_ && _)); [apply on_error_ok|].
    destruct w.(generated) as [text|] eqn:Hgen;
      [by apply on_text_ok|apply on_error_ok].
Qed.

Lemma evaluate_answer_in_range (body : option Body) :
  only_adds (score_within 0 10) sessions
    (evaluate_answer JSON_parse w body sessions).2.
Proof.
  apply (only_adds_weaken (handed_out JSON_parse w body)); [by intros e [He _]|].
  apply evaluate_answer_ok.
Qed.
End Handler.

(** C10.  Whatever the request, the parser and the AI do, an evaluation
    that the handler returns with status 200 or appends to a session has a
    score between 0 and 10, so a store whose scores are in that range
    stays so; each of the three fallback evaluations has a score between
    4 and 8; and every such evaluation is one of these fallbacks or else
    the object that the AI sent with its score replaced by
    max(0, min(10, score)). *)
Theorem evaluate_answer_scores (JSON_parse : jsstring → option json) (w : World)
    (body : option Body) (sessions : gmap jsstring Session) :
  (0 <= w.(random))%Q → (w.(random) < 1)%Q →
  let out := evaluate_answer JSON_parse w body sessions in
  (out.1.(status) = 200%N → score_within 0 10 out.1.(payload)) ∧
  only_adds (score_within 0 10) sessions out.2 ∧
  (scores_valid sessions → scores_valid out.2) ∧
  score_within 4 8 (unavailableEvaluation w.(random)) ∧
  score_within 4 8 (unparsedEvaluation w.(random)) ∧
  (∀ wordCount, score_within 4 8 (lengthEvaluation wordCount)) ∧
  (out.1.(status) = 200%N →
   fallen_back w body out.1.(payload) ∨ ai_clamped JSON_parse w out.1.(payload)) ∧
  only_adds (λ e, fallen_back w body e ∨ ai_clamped JSON_parse w e) sessions out.2.
Proof.
  intros H0 H1 out.
  destruct (evaluate_answer_ok JSON_parse w sessions H0 H1 body) as [Hres Hadd].
  pose proof (evaluate_answer_in_range JSON_parse w sessions H0 H1 body) as Hin.
  split; [intros H; by destruct (Hres H)|]. split; [exact Hin|].
  split; [by apply only_adds_valid|].
  split; [apply (score_within_weaken 5 8); [done|done|by apply unavailable_range]|].
  split; [apply (score_within_weaken 6 8); [done|done|by apply unparsed_range]|].
  split; [apply length_range|].
  split; [intros H; by destruct (Hres H)|].
  apply (only_adds_weaken (handed_out JSON_parse w body)); [by intros e [_ He]|].
  exact Hadd.
Qed.

Lemma evaluate_answer_scores_witness :
  let out := evaluate_answer (λ _, Some overrated) example_world
               (Some example_body) example_sessions in
  score_within 0 10 out.1.(payload) ∧ scores_valid out.2 ∧
  (fallen_back example_world (Some example_body) out.1.(payload) ∨
   ai_clamped (λ _, Some overrated) example_world out.1.(payload)).
Proof.
  destruct (evaluate_answer_scores (λ _, Some overrated) example_world
              (Some example_body) example_sessions)
    as (Hres & _ & Hvalid & _ & _ & _ & Hfrom & _).
  - unfold Qle. cbn. lia.
  - unfold Qlt. cbn. lia.
  - split; [apply Hres; reflexivity|]. split; [|apply Hfrom; reflexivity].
    apply Hvalid. intros key s a Hs Ha.
    unfold example_sessions in Hs.
    apply lookup_singleton_Some in Hs as [_ <-].
    by apply elem_of_nil in Ha.
Defined.

(** The clamped evaluation is stored and the fallback is stored after it and
    returned, when the question id has no string form. *)
Example unprintable_id_stores_two :
  let out := evaluate_answer (λ _, Some overrated) example_world
               (Some (mkBody (Some (JStr example_key))
                        (Some (JObj [(str "toString", of_Z 1)]))
                        (Some (JStr (str "I would use a hash map")))
                        (Some (JStr (str "How")))))
               example_sessions in
  out.1.(payload) = unparsedEvaluation (1 # 2) ∧
  (λ s, (λ a, prop a.(evaluation) (str "score")) <$> s.(answers))
    <$> out.2 !! example_key
  = Some [Some (of_Z 10); Some (of_Z 7)].
Proof. split; reflexivity. Qed.

Example overrated_is_clamped :
  prop (evaluate_answer (λ _, Some overrated) example_world
          (Some example_body) example_sessions).1.(payload) (str "score")
  = Some (JNum (Fin 10)).
Proof. reflexivity. Qed.

End ServerFacts.

(** ** More on the detector *)

Module DetectorMore.
Import JS Detector Frame Frames JSFacts DetectorFacts.

Lemma length_bind_row (y : Z) (l : list Z) :
  length (l ≫= λ x, [(x, y)]) = length l.
Proof.
  induction l as [|x l IH]; [done|]. rewrite bind_cons. cbn. by rewrite IH.
Qed.

Lemma length_interior (width height : Z) :
  length (interior width height)
  = (Z.to_nat (height - 2) * Z.to_nat (width - 2))%nat.
Proof.
  unfold interior. rewrite <- (length_seqZ 1 (height - 2)).
  induction (seqZ 1 (height - 2)) as [|y l IH]; [done|].
  rewrite bind_cons, length_app, IH, length_bind_row, length_seqZ. cbn. lia.
Qed.

Lemma filter_length_le {A : Type} (p : A → bool) (l : list A) :
  (length (List.filter p l) ≤ length l)%nat.
Proof.
  induction l as [|a l IH]; [done|]. cbn. destruct (p a); cbn; lia.
Qed.

(** Frames of one size whose interior pixels pass the threshold at the same
    places get the same count and the same answer. *)
Lemma detect_ext (f1 f2 : ImageData) :
  f1.(width) = f2.(width) → f1.(height) = f2.(height) →
  (∀ x y, 1 ≤ x ≤ Z.of_N f1.(width) - 2 → 1 ≤ y ≤ Z.of_N f1.(height) - 2 →
     is_edge f1.(data) (Z.of_N f1.(width)) x y
     = is_edge f2.(data) (Z.of_N f1.(width)) x y) →
  countEdges f1 = countEdges f2 ∧
  detectRectangularObject f1 = detectRectangularObject f2.
Proof.
  intros Hw Hh Hedge.
  assert (Hc : countEdges f1 = countEdges f2).
  { rewrite !countEdges_interior, <- Hw, <- Hh. do 2 f_equal.
    apply List.filter_ext_in. intros [x y] Hin.
    apply list_elem_of_In, interior_spec in Hin as [Hx Hy].
    unfold edge_at. cbn [fst snd]. rewrite <- Hw. by apply Hedge. }
  split; [done|].
  unfold detectRectangularObject, edgeRatio. cbv zeta.
  by rewrite Hc, Hw, Hh.
Qed.

Lemma count_range (f : ImageData) :
  0 ≤ countEdges f
  ≤ Z.max 0 (Z.of_N f.(width) - 2) * Z.max 0 (Z.of_N f.(height) - 2).
Proof.
  rewrite countEdges_interior.
  pose proof (filter_length_le (edge_at f)
                (interior (Z.of_N f.(width)) (Z.of_N f.(height)))) as Hle.
  rewrite length_interior in Hle. split; [lia|]. nia.
Qed.

(** The counter never exceeds the number of interior pixels. *)
Theorem countEdges_bounds (f : ImageData) :
  let w := Z.of_N f.(width) in
  let h := Z.of_N f.(height) in
  0 ≤ countEdges f ≤ Z.max 0 (w - 2) * Z.max 0 (h - 2).
Proof. apply count_range. Qed.

Lemma integer_test (f : ImageData) :
  let area := Z.of_N f.(width) * Z.of_N f.(height) in
  detectRectangularObject f = true
  ↔ area < 50 * countEdges f ∧ 20 * countEdges f < 3 * area.
Proof.
  intros area. unfold detectRectangularObject, edgeRatio. cbv zeta. fold area.
  pose proof (count_range f) as [Hc0 Hc1].
  assert (Ha : 0 ≤ area) by (subst area; lia).
  unfold div. destruct (Z.eqb_spec area 0) as [H0|H0].
  - assert (countEdges f = 0) as -> by nia. cbn. lia.
  - cbn [gt lt]. rewrite andb_true_iff, !Qltb_lt.
    rewrite Z.sgn_pos, Z.mul_1_r, Z.abs_eq by lia.
    unfold Qlt. cbn [Qnum Qden]. rewrite Z2Pos.id by lia. lia.
Qed.

(** The answer as a test on integers, valid for every frame, the empty ones
    included: the count must exceed a fiftieth of the area and stay below
    three twentieths of it. *)
Theorem detect_integer_test (f : ImageData) :
  let area := Z.of_N f.(width) * Z.of_N f.(height) in
  detectRectangularObject f = true
  ↔ area < 50 * countEdges f ∧ 20 * countEdges f < 3 * area.
Proof. apply integer_test. Qed.

Lemma detect_integer_test_witness :
  9 < 50 * countEdges (toImageData step3x3) ∧
  20 * countEdges (toImageData step3x3) < 3 * 9.
Proof.
  apply (detect_integer_test (toImageData step3x3)). reflexivity.
Defined.

(** A frame on which the detector answers [true] is at least 3x3 and has an
    edge. *)
Theorem detect_needs_interior (f : ImageData) :
  detectRectangularObject f = true →
  (3 ≤ f.(width))%N ∧ (3 ≤ f.(height))%N ∧ 1 ≤ countEdges f.
Proof.
  intros Hd. apply integer_test in Hd as [H1 H2]. cbv zeta in *.
  pose proof (count_range f) as [Hc0 Hc1].
  assert (Hpos : 1 ≤ countEdges f) by nia.
  repeat split; [nia|nia|done].
Qed.

Lemma detect_needs_interior_witness :
  1 ≤ countEdges (toImageData step3x3).
Proof.
  apply (detect_needs_interior (toImageData step3x3)). reflexivity.
Defined.

(** The kernels sum to zero and the magnitude ignores the sign: adding one
    constant to the red channel of every pixel, or complementing it, changes
    neither the count nor the answer. *)
Theorem offset_invariance (fr1 fr2 : Frame) (a c : Z) :
  well_formed fr1 → well_formed fr2 →
  fr1.(W) = fr2.(W) → fr1.(H) = fr2.(H) →
  a = 1 ∨ a = -1 →
  (∀ i j, 0 ≤ i < Z.of_N fr1.(W) → 0 ≤ j < Z.of_N fr1.(H) →
     P fr2 i j = a * P fr1 i j + c) →
  countEdges (toImageData fr1) = countEdges (toImageData fr2) ∧
  detectRectangularObject (toImageData fr1)
  = detectRectangularObject (toImageData fr2).
Proof.
  intros Hwf1 Hwf2 Hw Hh Ha HP.
  apply detect_ext; [done|done|].
  cbn [toImageData width height data]. intros x y Hx Hy.
  destruct (gradients_red fr1 x y Hwf1 Hx Hy) as [Hgx1 Hgy1].
  destruct (gradients_red fr2 x y Hwf2 ltac:(rewrite <- Hw; lia)
              ltac:(rewrite <- Hh; lia)) as [Hgx2 Hgy2].
  cbn [toImageData data] in Hgx1, Hgy1, Hgx2, Hgy2. rewrite <- Hw in Hgx2, Hgy2.
  unfold is_edge. rewrite Hgx1, Hgy1, Hgx2, Hgy2.
  rewrite !HP by lia. cbn. f_equal. destruct Ha as [-> | ->]; ring.
Qed.

Lemma offset_invariance_witness :
  detectRectangularObject (toImageData step3x3)
  = detectRectangularObject (toImageData inverse3x3).
Proof.
  apply (offset_invariance step3x3 inverse3x3 (-1) 255);
    [reflexivity|reflexivity|reflexivity|reflexivity|by right|].
  intros i j Hi Hj. cbn in Hi, Hj.
  assert (Hi' : i = 0 ∨ i = 1 ∨ i = 2) by lia.
  assert (Hj' : j = 0 ∨ j = 1 ∨ j = 2) by lia.
  destruct Hi' as [->|[->| ->]], Hj' as [->|[->| ->]]; reflexivity.
Defined.

Lemma add_NaN_r (a : num) : add a NaN = NaN.
Proof. by destruct a. Qed.

(** A pixel whose lower right neighbour lies beyond the buffer has a [NaN]
    gradient and is not counted.  A buffer too short to hold the red byte of
    pixel (2, 2) therefore gives the answer [false], whatever the sizes
    say. *)
Theorem short_buffer (f : ImageData) :
  Z.of_nat (length f.(data)) ≤ (2 * Z.of_N f.(width) + 2) * 4 →
  countEdges f = 0 ∧ detectRectangularObject f = false.
Proof.
  intros Hlen.
  assert (Hc : countEdges f = 0).
  { rewrite countEdges_interior, filter_none; [done|].
    intros [x y] Hin. apply interior_spec in Hin as [Hx Hy].
    unfold edge_at, is_edge. cbn [fst snd].
    set (w := Z.of_N f.(width)) in *.
    assert (Hget : get f.(data) (((y + 1) * w + (x + 1)) * 4) = NaN).
    { unfold get. destruct (Z.ltb_spec (((y + 1) * w + (x + 1)) * 4) 0); [done|].
      rewrite lookup_ge_None_2; [done|]. nia. }
    assert (Hgx : gx f.(data) w x y = NaN).
    { unfold gx. rewrite Hget. apply add_NaN_r. }
    by rewrite Hgx. }
  split; [done|by apply detect_no_edges].
Qed.

Lemma short_buffer_witness :
  detectRectangularObject (mkImageData [xff; x00; x00; xff] 320 240) = false.
Proof.
  apply (short_buffer (mkImageData [xff; x00; x00; xff] 320 240)).
  cbn. lia.
Defined.

End DetectorMore.

(** ** More on the tick of the camera component *)

Module CameraRecorderMore.
Import Detector Frame CameraRecorder.

(** Inside the module, where [this] is [undefined], every tick that reaches
    the comparison throws, whatever the frame shows: the detector's answer
    never reaches the state. *)
Theorem detectPhone_always_throws (f : ImageData) :
  detectPhone ThisUndefined (Some f) = ThrowTypeError.
Proof.
  unfold detectPhone. cbv zeta.
  by destruct (detectRectangularObject f).
Qed.

(** A tick shows the toast only for a frame on which the detector answers
    [true], only when [this.phoneDetected] is falsy, and then it also records
    the detection and sets the one timer that hides the toast after
    5000 ms. *)
Theorem toast_only_on_detection (this : ThisBinding) (frame : option ImageData)
    (acts : list Action) :
  detectPhone this frame = Normal acts →
  existsb is_notification acts = true →
  ∃ f v, frame = Some f ∧ detectRectangularObject f = true ∧
         this = ThisObject v ∧ default false v = false ∧
         acts = [Do (SetPhoneDetected true);
                 Do (SetShowPhoneToast true);
                 SetTimeout [SetShowPhoneToast false] 5000].
Proof.
  intros Hrun Hshown. destruct frame as [f|]; [|by injection Hrun as <-].
  unfold detectPhone in Hrun. cbv zeta in Hrun.
  destruct (detectRectangularObject f) eqn:Hd, this as [|v]; try done.
  - exists f, v. destruct v as [[|]|]; cbn in Hrun; injection Hrun as <-;
      try done.
  - destruct v as [[|]|]; cbn in Hrun; by injection Hrun as <-.
Qed.

Lemma toast_only_on_detection_witness :
  ∃ f v, Some (toImageData step3x3) = Some f ∧
         detectRectangularObject f = true ∧
         ThisObject None = ThisObject v ∧ default false v = false ∧
         [Do (SetPhoneDetected true); Do (SetShowPhoneToast true);
          SetTimeout [SetShowPhoneToast false] 5000]
         = [Do (SetPhoneDetected true); Do (SetShowPhoneToast true);
            SetTimeout [SetShowPhoneToast false] 5000].
Proof.
  apply (toast_only_on_detection (ThisObject None) (Some (toImageData step3x3)));
    reflexivity.
Defined.

End CameraRecorderMore.

(** ** More on the answer-evaluation handler *)

Module ServerMore.
Import Server Text ServerFacts.

Lemma field_set_field_ne (k k' : jsstring) (v : json) (fields : list (jsstring * json)) :
  k ≠ k' → field k' (set_field k v fields) = field k' fields.
Proof.
  intros Hne. induction fields as [|[k0 v0] fields IH]; cbn [set_field field].
  - by rewrite bool_decide_eq_false_2.
  - destruct (bool_decide_reflect (k0 = k)) as [->|Hk0]; cbn [field].
    + by rewrite !bool_decide_eq_false_2.
    + by rewrite IH.
Qed.

Section Handler.
Variable JSON_parse : jsstring → option json.
Variables (w : World) (sessions : gmap jsstring Session).

Lemma effect_error (body : option Body) (code : N) (msg : string) :
  code ∈ [400; 404; 500]%N →
  effect JSON_parse w body sessions (res_error code msg, sessions).
Proof. intros Hc. by left. Qed.

Lemma effect_stored (b : Body) (session : Session) (e : json) :
  sessions_get sessions b.(body_sessionId) = Some session →
  effect JSON_parse w (Some b) sessions
    (res_json e, push_answer sessions b.(body_sessionId) session (stored b e w)).
Proof.
  intros Hget. right. split; [done|].
  destruct b.(body_sessionId) as [[| | |key| |]|] eqn:Hsid; try done.
  exists b, key, session, [], w.(now). rewrite Hsid.
  repeat (split; [done|]). by left.
Qed.

Lemma effect_stored_twice (b : Body) (session : Session) (e : json) :
  sessions_get sessions b.(body_sessionId) = Some session →
  stringable_value b.(body_questionId) = false →
  ai_clamped JSON_parse w e →
  effect JSON_parse w (Some b) sessions
    (res_json (unparsedEvaluation w.(random)),
     push_answer sessions b.(body_sessionId) (pushed session (stored b e w))
       (stored_later b (unparsedEvaluation w.(random)) w)).
Proof.
  intros Hget Hid Hai. right. split; [done|].
  destruct b.(body_sessionId) as [[| | |key| |]|] eqn:Hsid; try done.
  exists b, key, session, [stored b e w], w.(later). rewrite Hsid.
  split; [done|]. split; [done|]. split; [done|]. split.
  - unfold push_answer, pushed, stored_later.
    cbn [fst snd answers domain questions scores createdAt payload res_json].
    by rewrite <- app_assoc.
  - right. repeat (split; [done|]). by exists e.
Qed.

Lemma on_error_effect (body : option Body) :
  effect JSON_parse w body sessions (on_error w body sessions).
Proof.
  unfold on_error. cbv zeta.
  destruct body as [b|]; [|apply effect_error; set_solver].
  destruct (sessions_get sessions b.(body_sessionId)) as [session|] eqn:Hget;
    [|apply effect_error; set_solver].
  destruct b.(body_answer) as [[| | |answer| |]|];
    try (apply effect_error; set_solver).
  by apply effect_stored.
Qed.

Lemma on_text_effect (b : Body) (session : Session) (text : jsstring) :
  w.(generated) = Some text →
  sessions_get sessions b.(body_sessionId) = Some session →
  effect JSON_parse w (Some b) sessions
    (on_text JSON_parse w b session text sessions).
Proof.
  intros Hgen Hget. unfold on_text. cbv zeta.
  destruct (JSON_parse _) as [[| | | | |fields]|] eqn:Hparse;
    try by apply effect_stored.
  destruct (negb _ || _ || _ || _ || _); [by apply effect_stored|].
  destruct (prop (JObj fields) (str "score")) as [[| |score| | |]|] eqn:Hscore;
    try by apply effect_stored.
  destruct (stringable_value _) eqn:Hid; [by apply effect_stored|].
  apply effect_stored_twice; [done|done|].
  destruct (clamp_range score) as (q & Hq & Heq & _). rewrite Hq.
  by exists text, fields, score, q.
Qed.

Lemma evaluate_answer_effect (body : option Body) :
  effect JSON_parse w body sessions (evaluate_answer JSON_parse w body sessions).
Proof.
  unfold evaluate_answer. destruct body as [b|]; [|apply on_error_effect].
  destruct (negb _ || _ || _ || _); [apply effect_error; set_solver|].
  destruct (sessions_get sessions b.(body_sessionId)) as [session|] eqn:Hget;
    [|apply effect_error; set_solver].
  destruct (negb w.(model_available)); [by apply effect_stored|].
  destruct (negb (_ && _)); [apply on_error_effect|].
  destruct w.(generated) as [text|] eqn:Hgen;
    [by apply on_text_effect|apply on_error_effect].
Qed.
End Handler.

(** A request that is not answered with status 200 is answered with 400, 404
    or 500 and leaves every session as it was. *)
Theorem evaluate_answer_rejects (JSON_parse : jsstring → option json) (w : World)
    (body : option Body) (sessions : gmap jsstring Session) :
  let out := evaluate_answer JSON_parse w body sessions in
  out.1.(status) ≠ 200%N →
  out.1.(status) ∈ [400; 404; 500]%N ∧ out.2 = sessions.
Proof.
  intros out Hne.
  destruct (evaluate_answer_effect JSON_parse w sessions body) as [H|[H _]];
    [exact H|done].
Qed.

Lemma evaluate_answer_rejects_witness :
  (evaluate_answer (λ _, None) example_world None example_sessions).2
  = example_sessions.
Proof.
  apply (evaluate_answer_rejects (λ _, None) example_world None example_sessions).
  cbn. discriminate.
Defined.

(** A request answered with status 200 appends the answer that carries the
    returned evaluation to the session named in the request and changes no
    other session; the answer holds the question id, question and answer of
    the request, and the session keeps its domain and questions.  It is the
    only answer appended when the question id has a string form.  When it
    has none, the same request may first append one more answer, holding
    the evaluation of the AI with the clamped score, and what is returned
    and appended last is then the fallback for unreadable responses. *)
Theorem evaluate_answer_appends (JSON_parse : jsstring → option json) (w : World)
    (body : option Body) (sessions : gmap jsstring Session) :
  let out := evaluate_answer JSON_parse w body sessions in
  out.1.(status) = 200%N →
  ∃ b key session earlier time,
    body = Some b ∧ b.(body_sessionId) = Some (JStr key) ∧
    sessions !! key = Some session ∧
    out.2 = <[key := mkSession session.(domain) session.(questions)
                (session.(answers) ++ earlier ++
                 [mkAnswer b.(body_questionId) b.(body_question) b.(body_answer)
                           out.1.(payload) time])
                session.(scores) session.(createdAt)]> sessions ∧
    ((earlier = [] ∧ time = w.(now)) ∨
     (stringable_value b.(body_questionId) = false ∧ time = w.(later) ∧
      out.1.(payload) = unparsedEvaluation w.(random) ∧
      ∃ e, ai_clamped JSON_parse w e ∧
           earlier = [mkAnswer b.(body_questionId) b.(body_question)
                             b.(body_answer) e w.(now)])).
Proof.
  intros out Hok.
  destruct (evaluate_answer_effect JSON_parse w sessions body) as [[H _]|[_ H]];
    [|exact H].
  fold out in H. rewrite Hok in H.
  repeat (apply elem_of_cons in H as [H|H]; [done|]). by apply elem_of_nil in H.
Qed.

Lemma evaluate_answer_appends_witness :
  let body := mkBody (Some (JStr example_key)) (Some unprintable)
                (Some (JStr (str "I would use a hash map")))
                (Some (JStr (str "How"))) in
  let out := evaluate_answer (λ _, Some overrated) example_world (Some body)
               example_sessions in
  ∃ b key session earlier time,
    Some body = Some b ∧ b.(body_sessionId) = Some (JStr key) ∧
    example_sessions !! key = Some session ∧
    out.2 = <[key := mkSession session.(domain) session.(questions)
                (session.(answers) ++ earlier ++
                 [mkAnswer b.(body_questionId) b.(body_question) b.(body_answer)
                           out.1.(payload) time])
                session.(scores) session.(createdAt)]> example_sessions ∧
    ((earlier = [] ∧ time = example_world.(now)) ∨
     (stringable_value b.(body_questionId) = false ∧
      time = example_world.(later) ∧
      out.1.(payload) = unparsedEvaluation example_world.(random) ∧
      ∃ e, ai_clamped (λ _, Some overrated) example_world e ∧
           earlier = [mkAnswer b.(body_questionId) b.(body_question)
                             b.(body_answer) e example_world.(now)])).
Proof.
  intros body out.
  apply (evaluate_answer_appends (λ _, Some overrated) example_world
           (Some body) example_sessions).
  reflexivity.
Defined.

End ServerMore.

(** ** Strings *)

Module TextFacts.
Import Server Text.

Lemma trimStart_split (s : jsstring) :
  ∃ l, s = l ++ trimStart s ∧ all_space l.
Proof.
  induction s as [|c s (l & Hs & Hl)]; [exists []; split; [done|by constructor]|].
  cbn [trimStart]. destruct (is_space c) eqn:Hc.
  - exists (c :: l). split; [cbn; congruence|by constructor].
  - exists []. split; [done|by constructor].
Qed.

Lemma trimStart_head (s : jsstring) (c : N) :
  head (trimStart s) = Some c → is_space c = false.
Proof.
  induction s as [|c' s IH]; [done|]. cbn [trimStart].
  destruct (is_space c') eqn:Hc; [done|]. cbn. congruence.
Qed.

Lemma trimStart_id (s : jsstring) :
  (∀ c, head s = Some c → is_space c = false) → trimStart s = s.
Proof.
  destruct s as [|c s]; [done|]. intros Hh. cbn. by rewrite (Hh c).
Qed.

Lemma trimStart_snoc (l : jsstring) (c : N) :
  trimStart (l ++ [c])
  = match trimStart l with
    | [] => if is_space c then [] else [c]
    | r => r ++ [c]
    end.
Proof.
  induction l as [|a l IH]; [done|]. cbn [app trimStart].
  by destruct (is_space a).
Qed.

Lemma trim_trimEnd (s : jsstring) : trim s = trimEnd (trimStart s).
Proof.
  unfold trim. generalize (trimStart s). clear s. intros s.
  induction s as [|c s IH]; [done|].
  rewrite reverse_cons, trimStart_snoc. cbn [trimEnd]. rewrite <- IH.
  destruct (trimStart (reverse s)) as [|a r]; [by destruct (is_space c)|].
  rewrite reverse_app. change (reverse [c]) with [c]. cbn [app].
  destruct (reverse (a :: r)) eqn:Hr; [|done].
  apply (f_equal length) in Hr. rewrite length_reverse in Hr. done.
Qed.

Lemma trimEnd_split (s : jsstring) :
  ∃ r, s = trimEnd s ++ r ∧ all_space r.
Proof.
  induction s as [|c s (r & Hs & Hr)]; [exists []; split; [done|by constructor]|].
  cbn [trimEnd]. destruct (trimEnd s) as [|a t] eqn:Ht.
  - destruct (is_space c) eqn:Hc.
    + exists (c :: r). split; [cbn in *; congruence|by constructor].
    + exists r. cbn in *. split; [congruence|done].
  - exists r. split; [cbn in *; congruence|done].
Qed.

Lemma trimEnd_last (s : jsstring) (c : N) :
  last (trimEnd s) = Some c → is_space c = false.
Proof.
  induction s as [|a s IH]; [done|]. cbn [trimEnd].
  destruct (trimEnd s) as [|b t] eqn:Ht.
  - destruct (is_space a) eqn:Ha; [done|]. cbn. congruence.
  - intros Hl. apply IH. by rewrite <- Hl.
Qed.

Lemma trimEnd_head (s : jsstring) (c : N) :
  (∀ a, head s = Some a → is_space a = false) →
  head (trimEnd s) = Some c → is_space c = false.
Proof.
  destruct s as [|a s]; [done|]. intros Hh. cbn [trimEnd].
  specialize (Hh a eq_refl).
  destruct (trimEnd s); rewrite ?Hh; cbn; congruence.
Qed.

Lemma trimEnd_id (s : jsstring) :
  (∀ c, last s = Some c → is_space c = false) → trimEnd s = s.
Proof.
  induction s as [|a s IH]; [done|]. intros Hl. cbn [trimEnd].
  destruct s as [|b t].
  - cbn. by rewrite (Hl a).
  - rewrite IH; [done|]. intros c Hc. apply Hl. by rewrite last_cons_cons.
Qed.

Lemma trim_head (s : jsstring) (c : N) :
  head (trim s) = Some c → is_space c = false.
Proof. rewrite trim_trimEnd. apply trimEnd_head, trimStart_head. Qed.

Lemma trim_last (s : jsstring) (c : N) :
  last (trim s) = Some c → is_space c = false.
Proof. rewrite trim_trimEnd. apply trimEnd_last. Qed.

Lemma trim_idempotent (s : jsstring) : trim (trim s) = trim s.
Proof.
  rewrite (trim_trimEnd (trim s)), (trimStart_id _ (trim_head s)).
  apply trimEnd_id, trim_last.
Qed.

(** [trim] removes white space at both ends and nothing else: the string is
    its trimmed form between two runs of white space, the trimmed form
    neither starts nor ends with white space, and trimming twice changes
    nothing more. *)
Theorem trim_spec (s : jsstring) :
  (∃ l r, s = l ++ trim s ++ r ∧ all_space l ∧ all_space r) ∧
  (∀ c, head (trim s) = Some c → is_space c = false) ∧
  (∀ c, last (trim s) = Some c → is_space c = false) ∧
  trim (trim s) = trim s.
Proof.
  rewrite !trim_trimEnd.
  destruct (trimStart_split s) as (l & Hl & Hsl).
  destruct (trimEnd_split (trimStart s)) as (r & Hr & Hsr).
  assert (Hhead : ∀ c, head (trimEnd (trimStart s)) = Some c → is_space c = false).
  { intros c. apply trimEnd_head. apply trimStart_head. }
  assert (Hlast : ∀ c, last (trimEnd (trimStart s)) = Some c → is_space c = false).
  { intros c. apply trimEnd_last. }
  split; [|split; [done|split; [done|]]].
  - exists l, r. split; [|done]. by rewrite <- Hr.
  - rewrite (trimStart_id _ Hhead). by apply trimEnd_id.
Qed.

Lemma trim_spec_witness :
  trim (trim (str "  hello world ")) = trim (str "  hello world ").
Proof. apply (trim_spec (str "  hello world ")). Defined.

(** *** Counting words *)

Lemma split_spaces_length (cur : jsstring) (in_run : bool) (s : jsstring) :
  Z.of_nat (length (split_spaces cur in_run s)) = piece_count in_run s.
Proof.
  revert cur in_run. induction s as [|c s IH]; intros cur in_run; [done|].
  cbn [split_spaces piece_count].
  destruct (is_space c); [destruct in_run|]; [apply IH| |apply IH].
  cbn [length]. rewrite Nat2Z.inj_succ, IH. lia.
Qed.

Lemma words_from_nonneg (b : bool) (s : jsstring) : 0 ≤ words_from b s.
Proof.
  revert b. induction s as [|c s IH]; intros b; [done|]. cbn [words_from].
  destruct (is_space c); [apply IH|]. pose proof (IH false). destruct b; lia.
Qed.

Lemma trimEnd_nil_words (b : bool) (s : jsstring) :
  trimEnd s = [] → words_from b s = 0.
Proof.
  revert b. induction s as [|c s IH]; intros b; [done|].
  cbn [trimEnd words_from]. destruct (trimEnd s); [|done].
  destruct (is_space c); [intros _; by apply IH|done].
Qed.

Lemma trimEnd_cons_words (s : jsstring) :
  trimEnd s ≠ [] → 1 ≤ words_from true s.
Proof.
  induction s as [|c s IH]; [done|]. cbn [trimEnd words_from].
  destruct (is_space c).
  - destruct (trimEnd s); [done|]. intros _. by apply IH.
  - intros _. pose proof (words_from_nonneg false s). lia.
Qed.

Lemma piece_count_trimEnd (s : jsstring) :
  piece_count true (trimEnd s) = Z.max 1 (words_from true s) ∧
  piece_count false (trimEnd s) = 1 + words_from false s.
Proof.
  induction s as [|c s [IHt IHf]]; [done|].
  cbn [trimEnd words_from].
  pose proof (words_from_nonneg false s) as Hnn.
  destruct (trimEnd s) as [|a t] eqn:Ht.
  - rewrite (trimEnd_nil_words true s Ht), (trimEnd_nil_words false s Ht) in *.
    destruct (is_space c) eqn:Hc; cbn [piece_count]; rewrite ?Hc; done.
  - assert (Hw : 1 ≤ words_from true s) by (apply trimEnd_cons_words; by rewrite Ht).
    cbn [piece_count] in *. destruct (is_space c); lia.
Qed.

Lemma words_trimStart (s : jsstring) :
  1 + words_from false (trimStart s) = Z.max 1 (words_from true s).
Proof.
  induction s as [|c s IH]; [done|]. cbn [trimStart words_from].
  destruct (is_space c) eqn:Hc; [done|]. cbn [words_from]. rewrite Hc.
  pose proof (words_from_nonneg false s). lia.
Qed.

Lemma wordCount_max (answer : jsstring) :
  wordCount answer = Z.max 1 (words answer).
Proof.
  unfold wordCount, split, words.
  rewrite split_spaces_length, trim_trimEnd.
  rewrite (proj2 (piece_count_trimEnd _)). apply words_trimStart.
Qed.

(** [wordCount] is the number of words of the answer, and 1 for an answer
    without any word. *)
Theorem wordCount_words (answer : jsstring) :
  wordCount answer = Z.max 1 (words answer).
Proof. apply wordCount_max. Qed.

(** *** Cleaning the AI response *)

Lemma remove_fence_keeps (f0 : N) (fence body rest : jsstring) :
  f0 ∉ body →
  remove_fence (f0 :: fence) 0 (body ++ rest)
  = body ++ remove_fence (f0 :: fence) 0 rest.
Proof.
  induction body as [|c body IH]; intros Hnot; [done|].
  apply not_elem_of_cons in Hnot as [Hc Hbody].
  cbn [app remove_fence].
  rewrite bool_decide_eq_false_2; [by rewrite IH|].
  cbn [length take]. congruence.
Qed.

Lemma trimEnd_snoc_space (s : jsstring) (c : N) :
  is_space c = true → trimEnd (s ++ [c]) = trimEnd s.
Proof.
  intros Hc. induction s as [|a s IH]; cbn [app trimEnd]; [by rewrite Hc|].
  by rewrite IH.
Qed.

Lemma trim_snoc_space (s : jsstring) (c : N) :
  is_space c = true → trim (s ++ [c]) = trim s.
Proof.
  intros Hc. rewrite !trim_trimEnd, trimStart_snoc.
  destruct (trimStart s) as [|a r] eqn:Hs; [by rewrite Hc|].
  by rewrite trimEnd_snoc_space.
Qed.

(** A response without a backquote is only trimmed, and a response that
    wraps its body in a [```json] fence is reduced to the trimmed body. *)
Theorem clean_response_spec (body : jsstring) :
  96%N ∉ body →
  clean_response body = trim body ∧
  clean_response (str "```json" ++ [10%N] ++ body ++ [10%N] ++ str "```")
  = trim body.
Proof.
  intros Hnot. unfold clean_response.
  change (str "```json") with [96; 96; 96; 106; 115; 111; 110]%N.
  change (str "```") with [96; 96; 96]%N.
  split.
  - rewrite <- (app_nil_r body) at 1.
    rewrite (remove_fence_keeps 96 _ body []) by done. cbn [remove_fence].
    rewrite (remove_fence_keeps 96 _ body []) by done. cbn [remove_fence].
    by rewrite app_nil_r.
  - change ([96; 96; 96; 106; 115; 111; 110] ++ [10] ++ body ++ [10] ++ [96; 96; 96])%N
      with (96 :: 96 :: 96 :: 106 :: 115 :: 111 :: 110 :: 10
              :: (body ++ [10; 96; 96; 96]))%N.
    cbn [remove_fence length take drop Nat.sub Nat.add].
    rewrite bool_decide_eq_true_2 by done.
    rewrite (remove_fence_keeps 96 _ body [10; 96; 96; 96]%N) by done.
    cbn [remove_fence length take drop app Nat.sub Nat.add].
    rewrite !bool_decide_eq_false_2 by done.
    rewrite (remove_fence_keeps 96 _ body _) by done.
    cbn [remove_fence length take drop app Nat.sub Nat.add].
    rewrite bool_decide_eq_false_2 by done.
    rewrite bool_decide_eq_true_2 by done.
    by apply trim_snoc_space.
Qed.

Lemma clean_response_spec_witness :
  clean_response (str "{}") = str "{}" ∧
  clean_response (str "```json" ++ [10%N] ++ str "{}" ++ [10%N] ++ str "```")
  = str "{}".
Proof.
  apply (clean_response_spec (str "{}")).
  intros Hin. apply list_elem_of_In in Hin. cbn in Hin.
  repeat (destruct Hin as [Hin|Hin]; [discriminate|]). exact Hin.
Defined.

End TextFacts.

(** ** The paths through the answer-evaluation handler *)

Module ServerPaths.
Import Server Text ServerFacts ServerMore TextFacts.

Lemma request_passes (b : Body) :
  well_formed_request b →
  negb (truthy b.(body_sessionId)) || negb (truthy b.(body_questionId))
  || negb (truthy b.(body_answer)) || negb (truthy b.(body_question)) = false.
Proof. intros (-> & -> & -> & ->). done. Qed.

Lemma baseScore_words (wordCount : Z) :
  1 ≤ wordCount → baseScore wordCount = Z.min 8 (4 + wordCount / 10).
Proof.
  intros Hw. unfold baseScore, Qfloor.
  assert (0 ≤ wordCount / 10) by (apply Z.div_pos; lia). lia.
Qed.

(** When the AI call fails on a well-formed request for a known session,
    a text answer is scored by its length alone, 4 plus one point for every
    ten words up to 8, and stored; an answer that is not a string gets
    status 500 and is not stored, although it passed the validation. *)
Theorem ai_failure_scoring (JSON_parse : jsstring → option json) (w : World)
    (b : Body) (sessions : gmap jsstring Session) (session : Session) :
  well_formed_request b →
  sessions_get sessions b.(body_sessionId) = Some session →
  w.(model_available) = true → w.(generated) = None →
  let out := evaluate_answer JSON_parse w (Some b) sessions in
  match b.(body_answer) with
  | Some (JStr answer) =>
    out.1.(status) = 200%N ∧
    prop out.1.(payload) (str "score")
    = Some (of_Z (Z.min 8 (4 + Z.max 1 (words answer) / 10)))
  | _ =>
    out = (res_error 500 "Failed to evaluate answer. Please try again.", sessions)
  end.
Proof.
  intros Hreq Hget Hmodel Hgen out. subst out.
  unfold evaluate_answer. rewrite (request_passes b Hreq), Hget, Hmodel, Hgen.
  cbn [negb].
  assert (Herror :
    match b.(body_answer) with
    | Some (JStr answer) =>
      (on_error w (Some b) sessions).1.(status) = 200%N ∧
      prop (on_error w (Some b) sessions).1.(payload) (str "score")
      = Some (of_Z (Z.min 8 (4 + Z.max 1 (words answer) / 10)))
    | _ =>
      on_error w (Some b) sessions
      = (res_error 500 "Failed to evaluate answer. Please try again.", sessions)
    end); [|by destruct (negb (_ && _))].
  unfold on_error. cbv zeta. rewrite Hget.
  destruct b.(body_answer) as [[| | |answer| |]|]; try done.
  split; [done|]. cbn [fst res_json payload lengthEvaluation prop field].
  rewrite bool_decide_eq_true_2 by done.
  rewrite baseScore_words, wordCount_max; [done|].
  rewrite wordCount_max. lia.
Qed.

Lemma ai_failure_scoring_witness :
  let out := evaluate_answer (λ _, None) failing_world (Some example_body)
               example_sessions in
  out.1.(status) = 200%N ∧
  prop out.1.(payload) (str "score")
  = Some (of_Z (Z.min 8 (4 + Z.max 1 (words (str "I would use a hash map")) / 10))).
Proof.
  apply (ai_failure_scoring (λ _, None) failing_world example_body
           example_sessions (mkSession (str "Web") (Listed []) [] [] 0));
    [repeat split|reflexivity|reflexivity|reflexivity].
Defined.

(** When the AI answers a well-formed request, whose question id, question
    and answer have a string form, with an evaluation of the expected shape
    whose score already lies between 0 and 10, the handler returns that
    evaluation as it is, the score keeping its value and every other
    property untouched, and stores it as the one new answer of the
    session. *)
Theorem valid_evaluation_passes (JSON_parse : jsstring → option json) (w : World)
    (b : Body) (sessions : gmap jsstring Session) (session : Session)
    (text : jsstring) (fields : list (jsstring * json)) (q : Q) :
  well_formed_request b → printable_request b →
  sessions_get sessions b.(body_sessionId) = Some session →
  w.(model_available) = true → w.(generated) = Some text →
  JSON_parse (clean_response text) = Some (JObj fields) →
  field (str "score") fields = Some (JNum (Fin q)) → (0 <= q <= 10)%Q →
  truthy (field (str "feedback") fields) = true →
  is_array (field (str "strengths") fields) = true →
  is_array (field (str "improvements") fields) = true →
  is_array (field (str "keyPoints") fields) = true →
  let out := evaluate_answer JSON_parse w (Some b) sessions in
  out.1.(status) = 200%N ∧
  (∃ q', prop out.1.(payload) (str "score") = Some (JNum (Fin q')) ∧ (q' == q)%Q) ∧
  (∀ k, k ≠ str "score" → prop out.1.(payload) k = field k fields) ∧
  out.2 = push_answer sessions b.(body_sessionId) session
            (mkAnswer b.(body_questionId) b.(body_question) b.(body_answer)
                      out.1.(payload) w.(now)).
Proof.
  intros Hreq (Hid & Hquestion & Hanswer) Hget Hmodel Hgen Hparse Hscore
    [Hq0 Hq10] Hfb Hst Him Hkp out.
  subst out. unfold evaluate_answer.
  rewrite (request_passes b Hreq), Hget, Hmodel, Hgen, Hquestion, Hanswer.
  cbn [negb andb].
  unfold on_text. cbv zeta. rewrite Hparse.
  cbn [prop]. rewrite Hscore, Hfb, Hst, Him, Hkp, Hid. cbn [is_number negb orb].
  cbn [fst snd res_json status payload assign prop].
  split; [done|]. split; [|split; [|done]].
  - rewrite field_set_field. cbn [Math_min].
    destruct (Qle_bool 10 q) eqn:H10; cbn [Math_max].
    + exists 10%Q. split; [done|].
      apply Qle_bool_iff in H10. by apply Qle_antisym.
    + destruct (Qle_bool q 0) eqn:H0; [|by exists q].
      exists 0%Q. split; [done|].
      apply Qle_bool_iff in H0. by apply Qle_antisym.
  - intros k Hk. by apply field_set_field_ne.
Qed.

Lemma valid_evaluation_passes_witness :
  let out := evaluate_answer (λ _, Some fair) example_world (Some example_body)
               example_sessions in
  out.1.(status) = 200%N ∧
  (∃ q', prop out.1.(payload) (str "score") = Some (JNum (Fin q')) ∧
         (q' == 15 # 2)%Q) ∧
  (∀ k, k ≠ str "score" →
        prop out.1.(payload) k
        = field k [(str "score", JNum (Fin (15 # 2)));
                   (str "feedback", JStr (str "Solid"));
                   (str "strengths", JArr [JStr (str "Clear")]);
                   (str "improvements", JArr []);
                   (str "keyPoints", JArr [])]) ∧
  out.2 = push_answer example_sessions example_body.(body_sessionId)
            (mkSession (str "Web") (Listed []) [] [] 0)
            (mkAnswer example_body.(body_questionId) example_body.(body_question)
                      example_body.(body_answer) out.1.(payload)
                      example_world.(now)).
Proof.
  apply (valid_evaluation_passes (λ _, Some fair) example_world example_body
           example_sessions (mkSession (str "Web") (Listed []) [] [] 0) (str "{}"));
    try reflexivity; [repeat split|repeat split|].
  split; unfold Qle; cbn; lia.
Defined.

End ServerPaths.

(** ** The question generator *)

Module QuestionsFacts.
Import Server Text Questions ServerFacts TextFacts.

Lemma own_elem (key : jsstring) (bank : list (jsstring * list json))
    (questions : list json) :
  own key bank = Some questions → questions ∈ bank.*2.
Proof.
  induction bank as [|[k qs] bank IH]; [done|]. cbn [own].
  destruct (bool_decide (k = key)).
  - intros [= ->]. by left.
  - intros Hown. right. by apply IH.
Qed.

Lemma bank_checked (questions : list json) :
  questions ∈ questionBank.*2 →
  length questions = 7%nat ∧
  forallb valid_question questions = true ∧ numbered questions.
Proof.
  intros Hin. cbn in Hin.
  repeat (apply elem_of_cons in Hin as [->|Hin];
          [split; [reflexivity|split; [vm_compute; reflexivity|reflexivity]]|]).
  by apply elem_of_nil in Hin.
Qed.

Lemma checked_valid (questions : list json) :
  forallb valid_question questions = true →
  Forall (λ q, valid_question q = true) questions.
Proof.
  intros Hvalid. apply Forall_forall. intros q Hin.
  apply (proj1 (forallb_forall _ _) Hvalid). by apply list_elem_of_In.
Qed.

Lemma fallback_checked (prototype : jsstring → option Foreign) (domain : jsstring) :
  (own domain questionBank = None → prototype domain = None) →
  ∃ questions,
    generateFallbackQuestions prototype domain = Listed questions ∧
    length questions = 7%nat ∧
    Forall (λ q, valid_question q = true) questions ∧
    numbered questions.
Proof.
  unfold generateFallbackQuestions. intros Hnot.
  assert (Hbank : ∀ questions, questions ∈ questionBank.*2 →
    ∃ questions', Listed questions = Listed questions' ∧
      length questions' = 7%nat ∧
      Forall (λ q, valid_question q = true) questions' ∧ numbered questions').
  { intros qs Hin. exists qs.
    destruct (bank_checked qs Hin) as (Hlen & Hvalid & Hnum).
    split; [done|]. split; [done|]. split; [by apply checked_valid|done]. }
  destruct (own domain questionBank) as [qs|] eqn:Hown.
  - apply Hbank. by apply own_elem in Hown.
  - rewrite Hnot by done. apply Hbank. apply list_elem_of_In. cbn. tauto.
Qed.

Lemma fallback_inherited (prototype : jsstring → option Foreign) (domain : jsstring)
    (f : Foreign) :
  own domain questionBank = None → prototype domain = Some f →
  generateFallbackQuestions prototype domain = Inherited f.
Proof. unfold generateFallbackQuestions. by intros -> ->. Qed.

(** For every domain that does not name a property which the bank inherits,
    the fallback generator returns seven questions, numbered 1 to 7 in this
    order, each of which passes the filter applied to the questions of the
    AI.  This holds whatever the runtime puts on [Object.prototype], and
    for the keys of the bank itself even when the prototype has a property
    of the same name. *)
Theorem fallback_questions (prototype : jsstring → option Foreign) (domain : jsstring) :
  (own domain questionBank = None → prototype domain = None) →
  ∃ questions,
    generateFallbackQuestions prototype domain = Listed questions ∧
    length questions = 7%nat ∧
    Forall (λ q, valid_question q = true) questions ∧
    numbered questions.
Proof. apply fallback_checked. Qed.

Lemma fallback_questions_witness :
  ∃ questions,
    generateFallbackQuestions standard (str "Quantum Computing") = Listed questions ∧
    length questions = 7%nat ∧
    Forall (λ q, valid_question q = true) questions ∧
    numbered questions.
Proof.
  apply (fallback_questions standard (str "Quantum Computing")).
  reflexivity.
Defined.

(** *** The handler *)

Lemma filter_valid (questions : list json) :
  Forall (λ q, valid_question q = true) (List.filter valid_question questions).
Proof.
  apply Forall_forall. intros q Hin.
  apply list_elem_of_In, List.filter_In in Hin. tauto.
Qed.

Section Handler.
Variable prototype : jsstring → option Foreign.
Variable JSON_parse : jsstring → option json.
Variables (w : World) (sessions : gmap jsstring Session).

Lemma with_fallback_outcome (domain : jsstring) :
  domain ≠ [] → trim domain = domain →
  let out := with_fallback prototype w domain sessions in
  out.1.(status) = 200%N ∧ stored_session prototype w sessions out.
Proof.
  intros Hne Htrim out. split; [done|]. exists domain.
  split; [done|]. split; [done|]. subst out. unfold with_fallback. cbv zeta.
  destruct (own domain questionBank) as [qs|] eqn:Hown;
    [|destruct (prototype domain) as [f|] eqn:Hproto].
  - destruct (fallback_checked prototype domain) as (qs' & Hq & Hlen & Hvalid & _);
      [by rewrite Hown|].
    rewrite Hq. left. exists qs'. split; [done|]. split; [done|].
    split; [lia|done].
  - rewrite (fallback_inherited prototype domain f Hown Hproto).
    right. by exists f.
  - destruct (fallback_checked prototype domain) as (qs' & Hq & Hlen & Hvalid & _);
      [done|].
    rewrite Hq. left. exists qs'. split; [done|]. split; [done|].
    split; [lia|done].
Qed.

Lemma on_failure_outcome (message : jsstring) (body : option value) :
  let out := on_failure prototype w message body sessions in
  (out.1.(status) = 500%N ∧ out.2 = sessions) ∨
  (out.1.(status) = 200%N ∧ stored_session prototype w sessions out).
Proof.
  unfold on_failure. cbv zeta.
  destruct (negb _ && _); [by left|].
  destruct body as [[[| | |domain| |]|]|]; try (by left).
  - right. by apply (with_fallback_outcome (str "General")).
  - right. apply with_fallback_outcome.
    + by case_bool_decide.
    + case_bool_decide; [done|]. apply trim_idempotent.
  - right. by apply (with_fallback_outcome (str "General")).
Qed.

Lemma generate_questions_outcome (message : jsstring) (body : option value) :
  let out := generate_questions prototype JSON_parse w message body sessions in
  (out.1.(status) ∈ [400; 500]%N ∧ out.2 = sessions) ∨
  (out.1.(status) = 200%N ∧ stored_session prototype w sessions out).
Proof.
  assert (Hfail : ∀ body,
    let out := on_failure prototype w message body sessions in
    (out.1.(status) ∈ [400; 500]%N ∧ out.2 = sessions) ∨
    (out.1.(status) = 200%N ∧ stored_session prototype w sessions out)).
  { intros body' out.
    destruct (on_failure_outcome message body') as [[Hst Hout]|H];
      [left; split; [fold out in Hst; rewrite Hst; repeat constructor|done]|by right]. }
  unfold generate_questions.
  destruct body as [[[| | |domain| |]|]|];
    try (left; split; [repeat constructor|done]); [|apply Hfail].
  destruct (bool_decide (domain = []) || _) eqn:Hblank;
    [left; split; [repeat constructor|done]|].
  apply orb_false_iff in Hblank as [_ Hlen]. apply Nat.eqb_neq in Hlen.
  assert (Hne : trim domain ≠ []) by (by destruct (trim domain)).
  assert (Htrim : trim (trim domain) = trim domain) by apply trim_idempotent.
  pose proof (with_fallback_outcome (trim domain) Hne Htrim) as Hfb.
  cbv zeta in Hfb.
  destruct (negb w.(model_available)); [by right|].
  destruct w.(generated) as [text|]; [|apply Hfail]. cbv zeta.
  destruct (JSON_parse _) as [[| | | |questions|]|]; try (by right).
  destruct (Nat.eqb_spec (length (take 7 (List.filter valid_question questions))) 0)
    as [H0|H0]; [by right|].
  right. split; [done|]. exists (trim domain). split; [done|]. split; [done|].
  left. eexists. split; [done|]. split; [done|].
  split; [|by apply Forall_take, filter_valid].
  rewrite length_take in *. lia.
Qed.
End Handler.

(** With the AI not configured, a domain that names a property which the
    bank inherits from [Object.prototype], and is not a key of the bank, is
    answered with status 200: the session that is stored holds the
    inherited value in the place of its questions, and the response carries
    what [JSON.stringify] makes of that value, for a method no questions
    at all. *)
Theorem inherited_domain_misleads (prototype : jsstring → option Foreign)
    (JSON_parse : jsstring → option json) (w : World) (message domain : jsstring)
    (f : Foreign) (sessions : gmap jsstring Session) :
  w.(model_available) = false → trim domain ≠ [] →
  own (trim domain) questionBank = None → prototype (trim domain) = Some f →
  let out := generate_questions prototype JSON_parse w message
               (Some (Some (JStr domain))) sessions in
  out.1.(status) = 200%N ∧
  prop out.1.(payload) (str "sessionId") = Some (JStr (session_key w)) ∧
  prop out.1.(payload) (str "questions") = f.(foreign_json) ∧
  out.2 = <[session_key w := mkSession (trim domain) (Inherited f) [] [] w.(now)]>
          sessions.
Proof.
  intros Hmodel Hne Hown Hproto out. subst out. unfold generate_questions.
  assert (Hdomain : bool_decide (domain = []) || (length (trim domain) =? 0)%nat
                    = false).
  { apply orb_false_iff. split.
    - apply bool_decide_eq_false_2. by intros ->.
    - apply Nat.eqb_neq. by destruct (trim domain). }
  rewrite Hdomain, Hmodel. cbn [negb].
  unfold with_fallback. cbv zeta.
  rewrite (fallback_inherited prototype (trim domain) f Hown Hproto).
  unfold created. cbv zeta.
  cbn [fst snd res_json status payload questions_property prop field].
  split; [done|]. split; [by rewrite bool_decide_eq_true_2|].
  rewrite bool_decide_eq_false_2 by done. split; [|done].
  destruct f.(foreign_json); cbn [field]; [|done].
  by rewrite bool_decide_eq_true_2.
Qed.

Lemma inherited_domain_misleads_witness :
  let out := generate_questions standard (λ _, None) (mkWorld false None 0 5 6) []
               (Some (Some (JStr (str " constructor ")))) ∅ in
  out.1.(status) = 200%N ∧
  prop out.1.(payload) (str "sessionId")
  = Some (JStr (session_key (mkWorld false None 0 5 6))) ∧
  prop out.1.(payload) (str "questions") = (method 1).(foreign_json) ∧
  out.2 = <[session_key (mkWorld false None 0 5 6)
            := mkSession (trim (str " constructor ")) (Inherited (method 1)) [] [] 5]>
          ∅.
Proof.
  apply (inherited_domain_misleads standard (λ _, None) (mkWorld false None 0 5 6)
           [] (str " constructor ") (method 1) ∅);
    [reflexivity|discriminate|reflexivity|reflexivity].
Defined.

(** Every request is answered with status 200, 400 or 500.  With 400 or
    500 no session changes.  With 200 one new session is stored under the
    decimal time of the request, with no answers yet; its domain is not
    empty and carries no white space at either end.  Either the session
    holds the questions that are returned, between one and seven of them,
    each with a numeric id and text question, difficulty and category; or
    its domain names a property that the bank inherits and the session
    holds that inherited value instead of questions. *)
Theorem generate_questions_creates (prototype : jsstring → option Foreign)
    (JSON_parse : jsstring → option json) (w : World)
    (message : jsstring) (body : option value) (sessions : gmap jsstring Session) :
  let out := generate_questions prototype JSON_parse w message body sessions in
  (out.1.(status) ∈ [400; 500]%N ∧ out.2 = sessions) ∨
  (out.1.(status) = 200%N ∧
   ∃ domain, domain ≠ [] ∧ trim domain = domain ∧
     ((∃ questions,
         out.1.(payload) = JObj [(str "sessionId", JStr (session_key w));
                                 (str "questions", JArr questions)] ∧
         out.2 = <[session_key w
                   := mkSession domain (Listed questions) [] [] w.(now)]> sessions ∧
         (1 ≤ length questions ≤ 7)%nat ∧
         Forall (λ q, valid_question q = true) questions) ∨
      (∃ f,
         own domain questionBank = None ∧ prototype domain = Some f ∧
         out.1.(payload) = JObj ((str "sessionId", JStr (session_key w))
                                 :: match f.(foreign_json) with
                                    | Some j => [(str "questions", j)]
                                    | None => []
                                    end) ∧
         out.2 = <[session_key w
                   := mkSession domain (Inherited f) [] [] w.(now)]> sessions))).
Proof. apply generate_questions_outcome. Qed.

(** With the AI not configured, the domain [constructor] finds the
    constructor of the bank object instead of a list of questions: the
    response has a session id and no questions. *)
Example constructor_domain :
  (generate_questions standard (λ _, None) (mkWorld false None 0 0 0) []
     (Some (Some (JStr (str "constructor")))) ∅).1
  = res_json (JObj [(str "sessionId", JStr (str "0"))]).
Proof. reflexivity. Qed.

(** A request answered with status 200 leaves under the key of the new
    session a session without answers, whatever was stored there before, and
    changes no session under another key. *)
Theorem new_session_replaces (prototype : jsstring → option Foreign)
    (JSON_parse : jsstring → option json) (w : World)
    (message : jsstring) (body : option value) (sessions : gmap jsstring Session) :
  let out := generate_questions prototype JSON_parse w message body sessions in
  out.1.(status) = 200%N →
  (∃ s, out.2 !! session_key w = Some s ∧ s.(answers) = []) ∧
  ∀ key, key ≠ session_key w → out.2 !! key = sessions !! key.
Proof.
  intros out Hok.
  destruct (generate_questions_outcome prototype JSON_parse w sessions message body)
    as [[Hst _]|[_ (d & _ & _ & [(qs & _ & Hout & _)|(f & _ & _ & _ & Hout)])]];
    fold out in Hst || fold out in Hout.
  - rewrite Hok in Hst.
    repeat (apply elem_of_cons in Hst as [Hst|Hst]; [done|]).
    by apply elem_of_nil in Hst.
  - rewrite Hout. split.
    + eexists. by rewrite lookup_insert_eq.
    + intros key Hkey. by rewrite lookup_insert_ne.
  - rewrite Hout. split.
    + eexists. by rewrite lookup_insert_eq.
    + intros key Hkey. by rewrite lookup_insert_ne.
Qed.

Lemma new_session_replaces_witness :
  let before : gmap jsstring Session :=
    {[ example_key := mkSession (str "Web") (Listed [])
                        [mkAnswer None None None fair 0] [] 0 ]} in
  let out := generate_questions standard (λ _, None)
               (mkWorld false None 0 1700000000000 1700000000000) []
               (Some (Some (JStr (str "Rust")))) before in
  (∃ s, out.2 !! example_key = Some s ∧ s.(answers) = []) ∧
  ∀ key, key ≠ example_key → out.2 !! key = before !! key.
Proof.
  intros before out.
  apply (new_session_replaces standard (λ _, None)
           (mkWorld false None 0 1700000000000 1700000000000) []
           (Some (Some (JStr (str "Rust")))) before).
  reflexivity.
Defined.

(** The filter of the generator accepts a question whose id is 0, but the
    evaluation handler takes the question id 0 for a missing field: every
    answer to such a question gets status 400 and is not stored. *)
Theorem zero_id_rejected (JSON_parse : jsstring → option json) (w : World)
    (b : Body) (sessions : gmap jsstring Session) (q : json) (z : Q) :
  valid_question q = true →
  prop q (str "id") = Some (JNum (Fin z)) → (z == 0)%Q →
  b.(body_questionId) = prop q (str "id") →
  evaluate_answer JSON_parse w (Some b) sessions
  = (res_error 400 "Missing required fields", sessions).
Proof.
  intros _ Hid Hz Hb. unfold evaluate_answer.
  assert (Hfalsy : truthy b.(body_questionId) = false).
  { rewrite Hb, Hid. cbn. apply negb_false_iff. by apply Qeq_bool_iff. }
  rewrite Hfalsy. cbn [negb]. by rewrite orb_true_r.
Qed.

Lemma zero_id_rejected_witness :
  evaluate_answer (λ _, Some fair) example_world
    (Some (mkBody (Some (JStr example_key)) (prop question_zero (str "id"))
                  (Some (JStr (str "A function with its scope")))
                  (Some (JStr (str "What is a closure"))))) example_sessions
  = (res_error 400 "Missing required fields", example_sessions).
Proof.
  apply (zero_id_rejected _ _ _ _ question_zero 0); reflexivity.
Defined.

End QuestionsFacts.

(** ** The results handler *)

Module ResultsFacts.
Import Server Text Questions Results ServerFacts ServerMore QuestionsFacts.

Lemma operand_of_valid (a : Answer) :
  score_within 0 10 a.(evaluation) →
  ∃ q, score_operand a = Number q ∧ (0 <= q <= 10)%Q.
Proof.
  intros (q & Hq & Hrange). unfold score_operand.
  destruct a.(evaluation) as [| | | | |fields]; try done.
  rewrite Hq. destruct (Qeq_bool q 0); [|by exists q].
  exists 0%Q. split; [done|]. split; unfold Qle; cbn; lia.
Qed.

Lemma pow_2_49 : 2 ^ 49 = 562949953421312.
Proof. reflexivity. Qed.

Lemma pow_2_53 : 2 ^ 53 = 9007199254740992.
Proof. reflexivity. Qed.

Ltac powers := rewrite ?pow_2_49, ?pow_2_53 in *; lia.

Lemma floor_between (x : Q) (lo hi : Z) :
  (inject_Z lo <= x)%Q → (x < inject_Z (hi + 1))%Q → lo ≤ Qfloor x ≤ hi.
Proof.
  intros Hlo Hhi. split.
  - rewrite <- (Qfloor_Z lo). by apply Qfloor_resp_le.
  - assert (Hlt : (inject_Z (Qfloor x) < inject_Z (hi + 1))%Q)
      by (apply Qle_lt_trans with x; [apply Qfloor_le|done]).
    rewrite <- Zlt_Qlt in Hlt. lia.
Qed.

Section Rounding.
Variable fl : Q → Q.
Hypothesis fl_rounding : rounding fl.

Lemma fl_between (x : Q) (lo hi : Z) :
  Z.abs lo ≤ 2 ^ 53 → Z.abs hi ≤ 2 ^ 53 →
  (inject_Z lo <= x <= inject_Z hi)%Q →
  (inject_Z lo <= fl x <= inject_Z hi)%Q.
Proof.
  destruct fl_rounding as [Hmono Hint]. intros Hlo Hhi [H1 H2]. split.
  - rewrite <- (Hint lo Hlo). by apply Hmono.
  - rewrite <- (Hint hi Hhi). by apply Hmono.
Qed.

Lemma reduce_bound (answers : list Answer) (sum : Q) (k : Z) :
  Forall (λ a, score_within 0 10 a.(evaluation)) answers →
  0 ≤ k → k + Z.of_nat (length answers) ≤ 2 ^ 49 →
  (0 <= sum <= inject_Z (10 * k))%Q →
  ∃ t, reduce fl sum answers = Sum t ∧
       (0 <= t <= inject_Z (10 * (k + Z.of_nat (length answers))))%Q.
Proof.
  revert sum k. induction answers as [|a answers IH]; intros sum k Hok Hk Hlen Hsum.
  - exists sum. split; [done|]. cbn [length]. by rewrite Z.add_0_r.
  - apply Forall_cons in Hok as [Ha Hok]. cbn [length] in *.
    destruct (operand_of_valid a Ha) as (q & Hq & Hq0 & Hq10).
    cbn [reduce]. rewrite Hq.
    destruct (IH (fl (sum + q)%Q) (k + 1)) as (t & Ht & Hrange);
      [done|lia|powers| |].
    + change 0%Q with (inject_Z 0). apply fl_between; [powers|powers|].
      replace (10 * (k + 1)) with (10 * k + 10) by lia.
      rewrite inject_Z_plus. change (inject_Z 10) with 10%Q.
      change (inject_Z 0) with 0%Q. destruct Hsum. split; lra.
    + exists t. split; [done|].
      by replace (k + Z.of_nat (S (length answers)))
        with (k + 1 + Z.of_nat (length answers)) by lia.
Qed.

Lemma average_range (t : Q) (n : nat) :
  (0 < n)%nat → (0 <= t <= inject_Z (10 * Z.of_nat n))%Q →
  (0 <= fl (t / inject_Z (Z.of_nat n)) <= 10)%Q.
Proof.
  intros Hn [Ht0 Ht1].
  assert (Hpos : (0 < inject_Z (Z.of_nat n))%Q).
  { change 0%Q with (inject_Z 0). rewrite <- Zlt_Qlt. lia. }
  change 0%Q with (inject_Z 0). change 10%Q with (inject_Z 10).
  apply fl_between; [powers|powers|]. split.
  - apply Qle_shift_div_l; [done|]. by rewrite Qmult_0_l.
  - apply Qle_shift_div_r; [done|]. by rewrite <- inject_Z_mult.
Qed.

Lemma percentage_range (average : Q) :
  (0 <= average <= 10)%Q →
  0 ≤ Math_round (fl (fl (average / 10) * 100)) ≤ 100.
Proof.
  intros [H0 H10].
  assert (H1 : (inject_Z 0 <= fl (average / 10) <= inject_Z 1)%Q).
  { apply fl_between; [powers|powers|].
    change (inject_Z 0) with 0%Q. change (inject_Z 1) with 1%Q.
    split; [apply Qle_shift_div_l|apply Qle_shift_div_r]; lra. }
  assert (H2 : (inject_Z 0 <= fl (fl (average / 10) * 100) <= inject_Z 100)%Q).
  { apply fl_between; [powers|powers|].
    change (inject_Z 0) with 0%Q in *. change (inject_Z 1) with 1%Q in *.
    change (inject_Z 100) with 100%Q. destruct H1. split; lra. }
  unfold Math_round. apply floor_between.
  - change (inject_Z 0) with 0%Q in *. destruct H2. lra.
  - change (inject_Z (100 + 1)) with 101%Q.
    change (inject_Z 100) with 100%Q in *. destruct H2. lra.
Qed.

Lemma printed_range (average : Q) :
  (0 <= average <= 10)%Q → (0 <= fl (toFixed1 average) <= 10)%Q.
Proof.
  intros [H0 H10]. unfold toFixed1.
  rewrite (proj2 (Qle_bool_iff 0 average) H0).
  destruct (floor_between (average * 10 + (1 # 2)) 0 100) as [Hf0 Hf1].
  { change (inject_Z 0) with 0%Q. lra. }
  { change (inject_Z (100 + 1)) with 101%Q. lra. }
  change 0%Q with (inject_Z 0). change 10%Q with (inject_Z 10).
  apply fl_between; [powers|powers|].
  rewrite Zle_Qle in Hf0, Hf1.
  change (inject_Z 0) with 0%Q in *. change (inject_Z 10) with 10%Q.
  change (inject_Z 100) with 100%Q in *.
  split; [apply Qle_shift_div_l|apply Qle_shift_div_r]; lra.
Qed.

Lemma results_ranges (now : N) (sessionId : jsstring)
    (sessions : gmap jsstring Session) (session : Session) :
  sessionId ≠ [] → sessions !! sessionId = Some session →
  Forall (λ a, score_within 0 10 a.(evaluation)) session.(answers) →
  Z.of_nat (length session.(answers)) ≤ 2 ^ 49 →
  ∃ s, results fl now sessionId sessions = Results s ∧
       0 ≤ s.(percentage) ≤ 100 ∧ (0 <= s.(averageScore) <= 10)%Q ∧
       s.(answeredQuestions) = length session.(answers) ∧
       match session.(questions) with
       | Listed l => s.(totalQuestions) = Some (of_Z (Z.of_nat (length l)))
       | Inherited f => s.(totalQuestions) = f.(foreign_length)
       end ∧
       s.(summary_answers) = session.(answers).
Proof.
  intros Hid Hget Hok Hlen. unfold results.
  rewrite bool_decide_eq_false_2, Hget by done.
  destruct (reduce_bound session.(answers) 0 0 Hok ltac:(lia) ltac:(powers))
    as (t & -> & Ht); [split; unfold Qle; cbn; lia|].
  rewrite Z.add_0_l in Ht. cbv zeta.
  eexists. split; [done|]. cbn [percentage averageScore answeredQuestions
                                totalQuestions summary_answers].
  assert (Havg : (0 <= (if (0 <? length session.(answers))%nat
                        then fl (t / inject_Z (Z.of_nat (length session.(answers))))
                        else 0) <= 10)%Q).
  { destruct (Nat.ltb_spec 0 (length session.(answers))) as [Hn|Hn].
    - by apply average_range.
    - split; unfold Qle; cbn; lia. }
  split; [by apply percentage_range|]. split; [by apply printed_range|].
  split; [done|]. split; [|done]. by destruct session.(questions).
Qed.
End Rounding.

(** For a session whose stored scores lie between 0 and 10 the handler
    answers with a percentage between 0 and 100 and an average between 0 and
    10, counts the questions and the answers of the session and returns the
    answers as stored.  This holds for any rounding of the arithmetic that is
    monotone and exact on the integers up to 2^53.  For a session that holds
    an inherited value in the place of its questions, the number of
    questions reported is the [length] of that value. *)
Theorem results_in_range (fl : Q → Q) (now : N) (sessionId : jsstring)
    (sessions : gmap jsstring Session) (session : Session) :
  rounding fl →
  sessionId ≠ [] → sessions !! sessionId = Some session →
  Forall (λ a, score_within 0 10 a.(evaluation)) session.(answers) →
  Z.of_nat (length session.(answers)) ≤ 2 ^ 49 →
  ∃ s, results fl now sessionId sessions = Results s ∧
       0 ≤ s.(percentage) ≤ 100 ∧ (0 <= s.(averageScore) <= 10)%Q ∧
       s.(answeredQuestions) = length session.(answers) ∧
       match session.(questions) with
       | Listed l => s.(totalQuestions) = Some (of_Z (Z.of_nat (length l)))
       | Inherited f => s.(totalQuestions) = f.(foreign_length)
       end ∧
       s.(summary_answers) = session.(answers).
Proof. intros Hfl. by apply results_ranges. Qed.

Lemma exact_rounding : rounding (λ q, q).
Proof. split; [by intros x y H|by intros z _]. Qed.

Lemma results_in_range_witness :
  ∃ s, results (λ q, q) 0 example_key finished_sessions = Results s ∧
       0 ≤ s.(percentage) ≤ 100 ∧ (0 <= s.(averageScore) <= 10)%Q ∧
       s.(answeredQuestions) = 3%nat ∧ s.(totalQuestions) = Some (of_Z 7) ∧
       s.(summary_answers) = [graded 8; graded 6; graded (15 # 2)].
Proof.
  apply (results_in_range (λ q, q) 0 example_key finished_sessions
           (mkSession (str "Web") (Listed default_questions)
              [graded 8; graded 6; graded (15 # 2)] [] 0)).
  - exact exact_rounding.
  - discriminate.
  - reflexivity.
  - repeat constructor; eexists; (split; [reflexivity|]);
      split; unfold Qle; cbn; lia.
  - cbn. lia.
Defined.

Example results_of_three :
  ∃ s, results (λ q, q) 0 example_key finished_sessions = Results s ∧
       s.(percentage) = 72 ∧ (s.(averageScore) == 72 # 10)%Q.
Proof. eexists. split; [reflexivity|]. split; reflexivity. Qed.

(** *** Runs of the server *)

Lemma generate_keeps (prototype : jsstring → option Foreign)
    (JSON_parse : jsstring → option json) (w : World)
    (message : jsstring) (body : option value) (sessions : gmap jsstring Session)
    (n : Z) :
  0 ≤ n → scores_valid sessions → at_most n sessions →
  let out := generate_questions prototype JSON_parse w message body sessions in
  scores_valid out.2 ∧ at_most n out.2.
Proof.
  intros Hn Hvalid Hmost out.
  assert (Hnew : ∀ s, s.(answers) = [] →
    scores_valid (<[session_key w := s]> sessions) ∧
    at_most n (<[session_key w := s]> sessions)).
  { intros s0 Hs0. split.
    - intros key s a Hs Ha.
      destruct (decide (session_key w = key)) as [<-|Hne].
      + rewrite lookup_insert_eq in Hs. injection Hs as <-.
        rewrite Hs0 in Ha. by apply elem_of_nil in Ha.
      + rewrite lookup_insert_ne in Hs by done. by apply (Hvalid key s).
    - intros key s Hs.
      destruct (decide (session_key w = key)) as [<-|Hne].
      + rewrite lookup_insert_eq in Hs. injection Hs as <-. rewrite Hs0. cbn. lia.
      + rewrite lookup_insert_ne in Hs by done. by apply (Hmost key s). }
  destruct (generate_questions_outcome prototype JSON_parse w sessions message body)
    as [[_ Hout]|[_ (d & _ & _ & [(qs & _ & Hout & _)|(f & _ & _ & _ & Hout)])]];
    fold out in Hout; rewrite Hout; [done|by apply Hnew|by apply Hnew].
Qed.

Lemma evaluate_keeps (JSON_parse : jsstring → option json) (w : World)
    (body : option Body) (sessions : gmap jsstring Session) (n : Z) :
  (0 <= w.(random))%Q → (w.(random) < 1)%Q →
  scores_valid sessions → at_most n sessions →
  scores_valid (evaluate_answer JSON_parse w body sessions).2 ∧
  at_most (n + 2) (evaluate_answer JSON_parse w body sessions).2.
Proof.
  intros H0 H1 Hvalid Hmost. split.
  - pose proof (evaluate_answer_in_range JSON_parse w sessions H0 H1 body) as Hadd.
    by apply (only_adds_valid sessions).
  - destruct (evaluate_answer_effect JSON_parse w sessions body)
      as [[_ ->]|[_ (b & key & session & earlier & time & _ & _ & Hget & -> & Hearlier)]].
    + intros key s Hs. specialize (Hmost key s Hs). lia.
    + assert (Hlen : (length earlier ≤ 1)%nat).
      { destruct Hearlier as [[-> _]|(_ & _ & _ & e & _ & ->)]; cbn; lia. }
      intros k s Hs. destruct (decide (key = k)) as [<-|Hne].
      * rewrite lookup_insert_eq in Hs. injection Hs as <-.
        cbn [answers]. rewrite !length_app. cbn [length].
        specialize (Hmost key session Hget). lia.
      * rewrite lookup_insert_ne in Hs by done.
        specialize (Hmost k s Hs). lia.
Qed.

Lemma serve_keeps (prototype : jsstring → option Foreign)
    (JSON_parse : jsstring → option json) (requests : list Request) :
  ∀ (sessions : gmap jsstring Session) (n : Z),
    Forall random_in_range requests →
    0 ≤ n → scores_valid sessions → at_most n sessions →
    scores_valid (serve prototype JSON_parse requests sessions) ∧
    at_most (n + 2 * Z.of_nat (evaluations requests))
      (serve prototype JSON_parse requests sessions).
Proof.
  induction requests as [|request requests IH];
    intros sessions n Hrandom Hn Hvalid Hmost.
  - cbn [serve evaluations]. by rewrite Z.add_0_r.
  - apply Forall_cons in Hrandom as [Hr Hrandom].
    destruct request as [w message body|w body]; cbn [serve evaluations].
    + destruct (generate_keeps prototype JSON_parse w message body sessions n
                  Hn Hvalid Hmost) as [Hv Hm].
      by apply IH.
    + destruct Hr as [H0 H1].
      destruct (evaluate_keeps JSON_parse w body sessions n H0 H1 Hvalid Hmost)
        as [Hv Hm].
      replace (n + 2 * Z.of_nat (S (evaluations requests)))
        with (n + 2 + 2 * Z.of_nat (evaluations requests)) by lia.
      apply IH; [done|lia|done|done].
Qed.

Lemma evaluations_length (requests : list Request) :
  (evaluations requests ≤ length requests)%nat.
Proof.
  induction requests as [|[w message body|w body] requests IH];
    cbn [evaluations length]; lia.
Qed.

(** From the empty store, after any run of question and evaluation
    requests, the results of every session are in range: a percentage
    between 0 and 100, an average between 0 and 10, and at most two answers
    for every evaluation request that was served. *)
Theorem served_results_in_range (fl : Q → Q) (prototype : jsstring → option Foreign)
    (JSON_parse : jsstring → option json) (requests : list Request)
    (now : N) (sessionId : jsstring) (session : Session) :
  rounding fl →
  Forall random_in_range requests →
  Z.of_nat (length requests) ≤ 2 ^ 48 →
  let sessions := serve prototype JSON_parse requests ∅ in
  sessionId ≠ [] → sessions !! sessionId = Some session →
  ∃ s, results fl now sessionId sessions = Results s ∧
       0 ≤ s.(percentage) ≤ 100 ∧ (0 <= s.(averageScore) <= 10)%Q ∧
       (s.(answeredQuestions) ≤ 2 * evaluations requests)%nat.
Proof.
  intros Hfl Hrandom Hlen sessions Hid Hget.
  destruct (serve_keeps prototype JSON_parse requests ∅ 0 Hrandom ltac:(lia))
    as [Hvalid Hmost]; [done|done|].
  fold sessions in Hvalid, Hmost.
  specialize (Hmost sessionId session Hget).
  pose proof (evaluations_length requests) as Hev.
  assert (H48 : 2 ^ 49 = 2 * 2 ^ 48) by reflexivity.
  destruct (results_ranges fl Hfl now sessionId sessions session Hid Hget)
    as (s & Hs & Hp & Ha & Hn & _).
  - apply Forall_forall. intros a Ha. by apply (Hvalid sessionId session).
  - lia.
  - exists s. repeat split; try done; try apply Hp; try apply Ha. lia.
Qed.

Lemma served_results_in_range_witness :
  let sessions :=
    serve standard (λ _, Some overrated)
      [Generate (mkWorld false None 0 1700000000000 1700000000000) []
         (Some (Some (JStr (str "Web Development"))));
       unprintable_request] ∅ in
  ∃ s, results (λ q, q) 5 example_key sessions = Results s ∧
       0 ≤ s.(percentage) ≤ 100 ∧ (0 <= s.(averageScore) <= 10)%Q ∧
       (s.(answeredQuestions) ≤ 2)%nat.
Proof.
  intros sessions.
  eapply (served_results_in_range (λ q, q) standard (λ _, Some overrated)
            [Generate (mkWorld false None 0 1700000000000 1700000000000) []
               (Some (Some (JStr (str "Web Development"))));
             unprintable_request]).
  - exact exact_rounding.
  - repeat constructor; unfold Qle, Qlt; cbn; lia.
  - cbn. lia.
  - discriminate.
  - vm_compute. reflexivity.
Defined.

(** One evaluation request can leave two answers: the bound is reached. *)
Example two_answers_from_one_request :
  ∃ s, results (λ q, q) 5 example_key
         (serve standard (λ _, Some overrated)
            [Generate (mkWorld false None 0 1700000000000 1700000000000) []
               (Some (Some (JStr (str "Web Development"))));
             unprintable_request] ∅)
       = Results s ∧ s.(answeredQuestions) = 2%nat ∧ s.(percentage) = 85.
Proof. eexists. split; [vm_compute; reflexivity|]. split; reflexivity. Qed.

(** A session started for the domain [constructor] reports one question,
    the number of parameters of the constructor. *)
Example constructor_results :
  ∃ s, results (λ q, q) 5 (str "0")
         (serve standard (λ _, None)
            [Generate (mkWorld false None 0 0 0) []
               (Some (Some (JStr (str "constructor"))))] ∅)
       = Results s ∧ s.(totalQuestions) = Some (of_Z 1).
Proof. eexists. split; [vm_compute; reflexivity|]. reflexivity. Qed.

End ResultsFacts.

(** ** The domain selection form *)

Module DomainSelectionFacts.
Import Server Text Questions DomainSelection TextFacts QuestionsFacts.

Lemma domains_cases (P : jsstring → Prop) :
  Forall P domains → ∀ d, d ∈ domains → P d.
Proof. intros HP d Hd. by apply (proj1 (Forall_forall _ _) HP). Qed.

(** Each preset domain of the form has a bank of its own on the server: the
    fallback generator answers it with that bank, not with the default
    one, whatever the bank inherits. *)
Theorem preset_domains_have_banks (prototype : jsstring → option Foreign)
    (d : jsstring) :
  d ∈ domains →
  ∃ questions,
    own d questionBank = Some questions ∧
    generateFallbackQuestions prototype d = Listed questions ∧
    questions ≠ default_questions.
Proof.
  revert d. apply domains_cases.
  repeat constructor; eexists; (split; [reflexivity|]);
    (split; [reflexivity|discriminate]).
Qed.

Lemma preset_domains_have_banks_witness :
  ∃ questions,
    own (str "Cybersecurity") questionBank = Some questions ∧
    generateFallbackQuestions standard (str "Cybersecurity") = Listed questions ∧
    questions ≠ default_questions.
Proof.
  apply (preset_domains_have_banks standard (str "Cybersecurity")).
  apply list_elem_of_In. vm_compute. tauto.
Defined.

Lemma preset_not_blank (d : jsstring) :
  d ∈ domains → d ≠ [] ∧ length (trim d) ≠ 0%nat.
Proof.
  revert d. apply domains_cases. by repeat constructor.
Qed.

(** A domain that the form hands to [onDomainSelect], a trimmed custom
    topic of three code units or more or one of the presets, is never
    answered with status 400 by the question generator: the answer has
    status 200 or 500. *)
Theorem submitted_domain_accepted (f : Form) (d : jsstring)
    (prototype : jsstring → option Foreign)
    (JSON_parse : jsstring → option json) (w : World) (message : jsstring)
    (sessions : gmap jsstring Session) :
  handleSubmit f = Select d →
  f.(useCustomDomain) = true ∨ f.(selectedDomain) ∈ domains →
  let out := generate_questions prototype JSON_parse w message
               (Some (Some (JStr d))) sessions in
  out.1.(status) = 200%N ∨ out.1.(status) = 500%N.
Proof.
  intros Hsubmit Hmode.
  assert (Hd : d ≠ [] ∧ length (trim d) ≠ 0%nat).
  { unfold handleSubmit in Hsubmit. cbv zeta in Hsubmit.
    destruct f.(useCustomDomain) eqn:Hcustom.
    - case_bool_decide as Hne; [done|]. cbn [andb] in Hsubmit.
      destruct (Nat.ltb_spec (length (trim f.(customDomain))) 3); [done|].
      destruct (negb f.(DomainSelection.isLoading)); [|done].
      injection Hsubmit as <-. split; [done|].
      rewrite trim_idempotent. lia.
    - destruct Hmode as [|Hin]; [done|].
      case_bool_decide; [done|]. cbn [andb] in Hsubmit.
      destruct (negb f.(DomainSelection.isLoading)); [|done].
      injection Hsubmit as <-. by apply preset_not_blank. }
  destruct Hd as [Hne Hlen]. cbv zeta. unfold generate_questions.
  rewrite bool_decide_eq_false_2 by done.
  rewrite (proj2 (Nat.eqb_neq _ _) Hlen). cbn [orb].
  assert (Hfail :
    (on_failure prototype w message (Some (Some (JStr d))) sessions).1.(status)
    = 200%N ∨
    (on_failure prototype w message (Some (Some (JStr d))) sessions).1.(status)
    = 500%N).
  { destruct (on_failure_outcome prototype w sessions message
                (Some (Some (JStr d)))) as [[H _]|[H _]]; [by right|by left]. }
  destruct (negb w.(model_available)); [by left|].
  destruct w.(generated); [|exact Hfail]. cbv zeta.
  destruct (JSON_parse _) as [[| | | |questions|]|]; try (by left).
  destruct (_ =? _)%nat; by left.
Qed.

Lemma submitted_domain_accepted_witness :
  let out := generate_questions standard (λ _, None) example_world []
               (Some (Some (JStr (str "Rust")))) example_sessions in
  out.1.(status) = 200%N ∨ out.1.(status) = 500%N.
Proof.
  apply (submitted_domain_accepted (mkForm [] (str " Rust ") true false) (str "Rust")
           standard (λ _, None) example_world [] example_sessions);
    [reflexivity|by left].
Defined.

(** A custom topic can be the name of an inherited property: the form lets
    [constructor] through. *)
Example constructor_topic :
  handleSubmit (mkForm [] (str "constructor") true false)
  = Select (str "constructor").
Proof. reflexivity. Qed.

End DomainSelectionFacts.

(** ** The interview screen of the application *)

Module AppFacts.
Import Server Text App.

Ltac stays :=
  cbn; split; [reflexivity|split; [reflexivity|
    split; [by left|intros Hchange; by destruct Hchange]]].

(** One call of [handleAnswer] keeps the questions and the session, moves at
    most one question forward and only after an accepted evaluation, never
    past the last question, and leaves the interview for the results only
    from the last question, after an accepted evaluation and an accepted
    summary. *)
Theorem handleAnswer_keeps_place (st : State) (answer : jsstring)
    (evaluated summary : Fetched) :
  let st' := after st (handleAnswer st answer evaluated summary).2 in
  st'.(questions) = st.(questions) ∧ st'.(sessionId) = st.(sessionId) ∧
  (st'.(currentQuestionIndex) = st.(currentQuestionIndex) ∨
   st'.(currentQuestionIndex) = S st.(currentQuestionIndex) ∧
   accepted evaluated ∧
   (S st.(currentQuestionIndex) < length st.(questions))%nat) ∧
  (st'.(appState) ≠ st.(appState) →
   st'.(appState) = results ∧
   S st.(currentQuestionIndex) = length st.(questions) ∧
   accepted evaluated ∧ summarised summary).
Proof.
  cbv zeta. unfold handleAnswer.
  destruct (st.(questions) !! st.(currentQuestionIndex)) as [q|] eqn:Hq;
    [|stays].
  apply lookup_lt_Some in Hq.
  destruct (negb (truthy (Some q))); [stays|].
  destruct evaluated as [message|ok line evaluation];
    [stays|].
  destruct ok; cbn [negb]; [|stays].
  destruct (truthy (Some evaluation)) eqn:Ht; cbn [negb orb];
    [|stays].
  destruct (is_number (prop evaluation (str "score"))) eqn:Hn; cbn [negb];
    [|stays].
  assert (Hacc : accepted (Replied true line evaluation))
    by (by exists line, evaluation).
  destruct (Z.ltb_spec (Z.of_nat st.(currentQuestionIndex))
              (Z.of_nat (length st.(questions)) - 1)) as [Hlt|Hge].
  - cbn. split; [reflexivity|split; [reflexivity|split]].
    + right. split; [reflexivity|split; [done|lia]].
    + intros Hchange. by destruct Hchange.
  - assert (Hlast : S st.(currentQuestionIndex) = length st.(questions)) by lia.
    destruct summary as [message|ok line' data];
      [stays|].
    unfold fetchResults.
    destruct ok; cbn [negb]; [|stays].
    destruct (truthy (Some data)) eqn:Ht'; cbn [negb orb];
      [|stays].
    destruct (is_number (prop data (str "averageScore"))) eqn:Hn'; cbn [negb];
      [|stays].
    cbn. split; [reflexivity|split; [reflexivity|split; [by left|]]].
    intros _. split; [reflexivity|split; [done|split; [done|]]].
    by exists line', data.
Qed.

Lemma handleAnswer_keeps_place_witness :
  (after two_questions
     (handleAnswer two_questions (str "A function with its scope")
        (Replied true (str "200 OK") fair) (Rejected [])).2).(questions)
  = two_questions.(questions).
Proof.
  apply (handleAnswer_keeps_place two_questions (str "A function with its scope")
           (Replied true (str "200 OK") fair) (Rejected [])).
Defined.

Lemma answer_request_session (st st' : State) (q : json) (answer : jsstring) :
  st'.(sessionId) = st.(sessionId) →
  answer_request st' q answer = answer_request st q answer.
Proof. intros Hs. unfold answer_request. by rewrite Hs. Qed.

Lemma answer_all_from (summary : Fetched) (line : jsstring) (data : json)
    (remaining : list json) :
  summary = Replied true line data →
  truthy (Some data) = true →
  is_number (prop data (str "averageScore")) = true →
  ∀ (asked : list json) (st : State) (answers : list (jsstring * Fetched)),
    remaining ≠ [] →
    st.(questions) = asked ++ remaining →
    st.(currentQuestionIndex) = length asked →
    Forall (λ q, truthy (Some q) = true) remaining →
    length answers = length remaining →
    Forall (λ a, accepted a.2) answers →
    (answer_all st answers summary).1
    = zip_with (λ q a, answer_request st q a.1) remaining answers ∧
    (answer_all st answers summary).2.(appState) = results ∧
    (answer_all st answers summary).2.(interviewResults) = Some data ∧
    (answer_all st answers summary).2.(error) = [] ∧
    (answer_all st answers summary).2.(isLoading) = false.
Proof.
  intros -> Hdata Havg.
  induction remaining as [|q remaining IH];
    intros asked st answers Hne Hqs Hidx Htruthy Hlen Hacc; [done|].
  destruct answers as [|[answer evaluated] answers]; [done|].
  apply Forall_cons in Htruthy as [Hq Htruthy].
  apply Forall_cons in Hacc as [Hfirst Hacc]. cbn [snd] in Hfirst.
  destruct Hfirst as (sl & ev & -> & Hev & Hscore).
  cbn [length] in Hlen. injection Hlen as Hlen.
  cbn [answer_all zip_with fst snd]. unfold handleAnswer.
  rewrite Hqs, Hidx, lookup_app_r, Nat.sub_diag by lia.
  cbn [lookup list_lookup]. rewrite Hq, Hev, Hscore. cbn [negb orb].
  rewrite length_app. cbn [length].
  destruct (Z.ltb_spec (Z.of_nat (length asked))
              (Z.of_nat (length asked + S (length remaining)) - 1)) as [Hlt|Hge].
  - destruct remaining as [|q' remaining']; [cbn [length] in Hlt; lia|].
    cbn [fst snd].
    set (st' := after st _).
    assert (Hs' : st'.(sessionId) = st.(sessionId)) by reflexivity.
    assert (Hq' : st'.(questions) = st.(questions)) by reflexivity.
    assert (Hi' : st'.(currentQuestionIndex) = S st.(currentQuestionIndex))
      by reflexivity.
    clearbody st'.
    destruct (IH (asked ++ [q]) st' answers) as (Hposted & Hfinal);
      [done|by rewrite Hq', Hqs, <- app_assoc|
       by rewrite Hi', Hidx, length_app; cbn; lia|done|done|done|].
    rewrite Hposted. split; [|exact Hfinal].
    cbn [app]. f_equal.
    apply zip_with_ext; [|done|done]. intros q0 a0.
    by apply answer_request_session.
  - destruct remaining as [|q' remaining']; [|cbn [length] in Hge; lia].
    destruct answers; [|done].
    unfold fetchResults. cbn [negb]. rewrite Hdata, Havg. cbn [negb orb].
    by cbn.
Qed.

(** Answering every question in turn, each answer being accepted by the
    server, posts one request per question, in the order of the questions
    and with the id and text of each, and ends on the results screen with
    the summary, no error and no request running. *)
Theorem interview_completes (st : State) (answers : list (jsstring * Fetched))
    (summary : Fetched) (line : jsstring) (data : json) :
  st.(currentQuestionIndex) = 0%nat → st.(questions) ≠ [] →
  Forall (λ q, truthy (Some q) = true) st.(questions) →
  length answers = length st.(questions) →
  Forall (λ a, accepted a.2) answers →
  summary = Replied true line data →
  truthy (Some data) = true →
  is_number (prop data (str "averageScore")) = true →
  let run := answer_all st answers summary in
  run.1 = zip_with (λ q a, answer_request st q a.1) st.(questions) answers ∧
  run.2.(appState) = results ∧ run.2.(interviewResults) = Some data ∧
  run.2.(error) = [] ∧ run.2.(isLoading) = false.
Proof.
  intros Hidx Hne Htruthy Hlen Hacc Hsummary Hdata Havg.
  by apply (answer_all_from summary line data st.(questions) Hsummary Hdata Havg []).
Qed.

Lemma interview_completes_witness :
  let run := answer_all two_questions two_answers
               (Replied true (str "200 OK") a_summary) in
  run.1 = zip_with (λ q a, answer_request two_questions q a.1)
            two_questions.(questions) two_answers ∧
  run.2.(appState) = results ∧ run.2.(interviewResults) = Some a_summary ∧
  run.2.(error) = [] ∧ run.2.(isLoading) = false.
Proof.
  apply (interview_completes two_questions two_answers
           (Replied true (str "200 OK") a_summary) (str "200 OK") a_summary);
    try reflexivity.
  - discriminate.
  - by repeat constructor.
  - repeat constructor; eexists _, _; by repeat split.
Defined.




End AppFacts.
